(** * The storage hub: upload, delete and list handlers

    A shallow embedding of [hub/src/server/server.ts] (class [HubServer]),
    [hub/src/server/ProofChecker.ts] (class [ProofChecker]) and
    [hub/src/server/utils.ts] ([generateUniqueID], [megabytesToBytes],
    [bytesToMegabytes], [dateToUnixTimeSeconds], [readStream],
    [monitorStreamProgress], [AsyncMutexScope]).

    JavaScript strings are modelled as [string] (sequences of 8-bit code
    units), JavaScript numbers that hold byte counts as [Z], sizes that
    come from the configuration as exact rationals [Q], arrays as lists,
    [Set<string>] as [gset string] and the object store behind the driver
    as a [gmap].  Handlers are written in a small state-and-error monad
    whose state holds the store, the revocation cache and a trace of the
    calls made on the driver. *)

From Stdlib Require Import ZArith QArith Qabs Qround Lqa String Ascii List Lia DecimalString.
From stdpp Require Import gmap strings list sorting.

Open Scope string_scope.

(** ** JavaScript primitives used by the sources *)

Module JS.

(** [s.startsWith(p)] *)
Fixpoint startsWith (s p : string) {struct p} : bool :=
  match p with
  | EmptyString => true
  | String c p' =>
      match s with
      | EmptyString => false
      | String d s' => if Ascii.eqb c d then startsWith s' p' else false
      end
  end.

(** [s.slice(n)] for [0 <= n] *)
Fixpoint slice_from (n : nat) (s : string) : string :=
  match n with
  | O => s
  | S n' => match s with
            | EmptyString => EmptyString
            | String _ s' => slice_from n' s'
            end
  end.

(** [s.slice(0, n)] for [0 <= n] *)
Fixpoint slice_to (n : nat) (s : string) : string :=
  match n with
  | O => EmptyString
  | S n' => match s with
            | EmptyString => EmptyString
            | String c s' => String c (slice_to n' s')
            end
  end.

(** [s.endsWith(p)] *)
Definition endsWith (s p : string) : bool :=
  if (String.length p <=? String.length s)%nat
  then String.eqb (slice_from (String.length s - String.length p) s) p
  else false.

(** [s.split(sep)] for a one-character separator; the result is never
    empty ([''.split('/')] is [['']]). *)
Fixpoint split (sep : ascii) (s : string) : list string :=
  match s with
  | EmptyString => [EmptyString]
  | String c s' =>
      if Ascii.eqb c sep then EmptyString :: split sep s'
      else match split sep s' with
           | seg :: rest => String c seg :: rest
           | [] => [String c EmptyString]
           end
  end.

(** Truthiness of a string: only the empty string is falsy. *)
Definition truthy (s : string) : bool := negb (String.eqb s EmptyString).

(** [!!x] for [x : string | undefined] *)
Definition bangbang (x : option string) : bool :=
  match x with
  | Some s => truthy s
  | None => false
  end.

(** [arr.find(pred)]: the first element that satisfies [pred], or
    [undefined]. *)
Definition find {A} (pred : A -> bool) (arr : list A) : option A :=
  List.find pred arr.

(** [arr.includes(x)] on strings *)
Definition includes (arr : list string) (x : string) : bool :=
  existsb (String.eqb x) arr.

(** A JavaScript number as far as the sources need it: [NaN], the two
    infinities, or a finite value.  Finite values are kept exact. *)
Inductive number :=
| NaN
| Infinity (negative : bool)
| Finite (q : Q).

Definition Number_isFinite (x : number) : bool :=
  match x with Finite _ => true | _ => false end.

Definition Qltb (a b : Q) : bool := negb (Qle_bool b a).

(** [x > y]; every comparison with [NaN] is false. *)
Definition gt (x y : number) : bool :=
  match x, y with
  | NaN, _ | _, NaN => false
  | Infinity false, Infinity false => false
  | Infinity false, _ => true
  | _, Infinity false => false
  | Infinity true, _ => false
  | _, Infinity true => true
  | Finite a, Finite b => Qltb b a
  end.

(** Rounding of a natural number to the nearest double (53-bit
    significand, ties to even); [None] stands for overflow to
    [Infinity]. *)
Definition round53 (n : N) : option N :=
  let bits := N.size n in
  if (bits <=? 53)%N then Some n
  else
    let e := (bits - 53)%N in
    let q := N.shiftr n e in
    let r := N.land n (N.ones e) in
    let half := N.shiftl 1 (e - 1) in
    let q' := if (r <? half)%N then q
              else if (half <? r)%N then N.succ q
              else if N.even q then q else N.succ q in
    let v := N.shiftl q' e in
    if (N.size v <=? 1024)%N then Some v else None.

(** The white space [parseInt] skips, among the code units below 256:
    tab, line feed, vertical tab, form feed, carriage return, space and
    no-break space. *)
Definition is_whitespace (c : ascii) : bool :=
  let n := nat_of_ascii c in
  ((9 <=? n) && (n <=? 13) || (n =? 32) || (n =? 160))%nat.

Fixpoint trim_start (s : string) : string :=
  match s with
  | String c s' => if is_whitespace c then trim_start s' else s
  | EmptyString => EmptyString
  end.

(** The value of a digit in radix [r], if it is one. *)
Definition digit_value (r : N) (c : ascii) : option N :=
  let n := N_of_ascii c in
  let v := if ((48 <=? n) && (n <=? 57))%N then Some (n - 48)%N
           else if ((97 <=? n) && (n <=? 122))%N then Some (n - 87)%N
           else if ((65 <=? n) && (n <=? 90))%N then Some (n - 55)%N
           else None in
  match v with
  | Some d => if (d <? r)%N then Some d else None
  | None => None
  end.

(** Reads the longest run of radix-[r] digits at the start of [s];
    [None] when there is none. *)
Fixpoint digits (r : N) (acc : option N) (s : string) : option N :=
  match s with
  | EmptyString => acc
  | String c s' =>
      match digit_value r c with
      | Some d => digits r (Some (match acc with
                                  | Some a => a * r + d
                                  | None => d
                                  end)%N) s'
      | None => acc
      end
  end.

(** [parseInt(s)] with no radix argument: leading white space, an
    optional sign, an optional [0x] prefix, then digits; trailing
    characters are ignored.  [undefined] converts to the string
    ["undefined"], which has no digits. *)
Definition parseInt (header : option string) : number :=
  match header with
  | None => NaN
  | Some s =>
      let s1 := trim_start s in
      let '(neg, s2) :=
        match s1 with
        | String "-" t => (true, t)
        | String "+" t => (false, t)
        | _ => (false, s1)
        end in
      let '(r, s3) :=
        match s2 with
        | String "0" (String "x" t) => (16%N, t)
        | String "0" (String "X" t) => (16%N, t)
        | _ => (10%N, s2)
        end in
      match digits r None s3 with
      | None => NaN
      | Some n =>
          match round53 n with
          | None => Infinity neg
          | Some v => Finite (inject_Z (if neg then - Z.of_N v else Z.of_N v))
          end
      end
  end.

(** [`${n}`] for a non-negative integer *)
Definition template_of_N (n : N) : string :=
  NilZero.string_of_uint (N.to_uint n).

(** [`${n}`] for an integer *)
Definition template_of_Z (n : Z) : string :=
  match n with
  | Zneg p => String "-" (template_of_N (Npos p))
  | _ => template_of_N (Z.to_N n)
  end.

(** [x / y] for a finite [y] that is not zero *)
Definition divide (x : number) (y : Q) : number :=
  match x with
  | NaN => NaN
  | Infinity negative => Infinity (xorb negative (negb (Qle_bool 0 y)))
  | Finite q => Finite (q / y)
  end.

(** [Math.round(x)]: the integer closest to [x], the larger one when two
    are equally close. *)
Definition Math_round (x : number) : number :=
  match x with
  | Finite q => Finite (inject_Z (Qfloor (q + (1 # 2))))
  | _ => x
  end.

End JS.

(** ** Errors ([errors.ts] is not part of the sources; the handlers only
    construct and test the error classes, so an error is its class). *)

Inductive HubError :=
| ValidationError
| NotEnoughProofError
| PayloadTooLargeError
| DoesNotExist
| DriverError
| OtherError.

Inductive Result (A : Type) :=
| Ok (a : A)
| Err (e : HubError).
Arguments Ok {A} a.
Arguments Err {A} e.

#[global] Instance HubError_eq_dec : EqDecision HubError.
Proof. solve_decision. Defined.

(** A [Buffer] is a sequence of bytes. *)
Definition Buffer := list Byte.byte.

Definition buffer_of (s : string) : Buffer := list_byte_of_string s.

(** ** [utils.ts] *)

Module Utils.

Definition alphabet : string :=
  "0123456789ABCDEFGHIJKLMNOPQRSTUVWXYZabcdefghijklmnopqrstuvwxyz".

(** [nanoid/generate] is an external package: [nanoid(alphabet, size)]
    returns [size] characters, each taken from [alphabet] at a random
    index.  The random indices are supplied by [rnd]. *)
Definition nanoid (rnd : nat -> nat) (alphabet : string) (size : nat) : string :=
  string_of_list_ascii
    (map (fun i => match String.get (rnd i mod String.length alphabet)%nat alphabet with
                   | Some c => c
                   | None => "0"%char
                   end)
         (seq 0%nat size)).

Definition generateUniqueID (rnd : nat -> nat) : string :=
  let id := nanoid rnd alphabet 10 in
  id.

Definition megabytesToBytes (megabytes : Q) : Q :=
  (megabytes * 1024 * 1024)%Q.

(** [x.toFixed(digits)] prints the integer [n] for which [n / 10^digits]
    is closest to [x] (the larger one on a tie, on the magnitude), with a
    decimal point before its last [digits] digits.  The printed numeral
    is represented by [n] and [digits].  More than 100 digits are a
    [RangeError], here [None]. *)
Record FixedNumeral := { numeral_units : Z; numeral_digits : nat }.

Definition nearestNumeral (x : Q) (fractionDigits : nat) : FixedNumeral :=
  let scaled := (Qabs x * inject_Z (10 ^ Z.of_nat fractionDigits))%Q in
  let n := Qfloor (scaled + (1 # 2))%Q in
  {| numeral_units := if Qle_bool 0 x then n else (- n)%Z;
     numeral_digits := fractionDigits |}.

Definition toFixed (x : Q) (fractionDigits : nat) : option FixedNumeral :=
  if (100 <? fractionDigits)%nat then None
  else Some (nearestNumeral x fractionDigits).

(** [Number.parseFloat] of such a numeral is the number it denotes. *)
Definition parseFloat (s : FixedNumeral) : Q :=
  (inject_Z (numeral_units s) / inject_Z (10 ^ Z.of_nat (numeral_digits s)))%Q.

Definition bytesToMegabytes (bytes : Q) (decimals : nat) : option Q :=
  option_map parseFloat (toFixed (bytes / (1024 / 1024))%Q decimals).

(** The default of the [decimals] parameter. *)
Definition bytesToMegabytes_default (bytes : Q) : option Q := bytesToMegabytes bytes 2.

(** A [stream.Readable]: the chunks it still has to deliver, and the
    error it was destroyed with, if it was. *)
Record Readable := { chunks : list Buffer; destroyed : option HubError }.

Definition destroy (error : HubError) (stream : Readable) : Readable :=
  {| chunks := chunks stream; destroyed := Some error |}.

(** A progress callback receives the total and the chunk byte counts; it
    may act on the source stream it closes over and it may throw. *)
Definition StreamProgressCallback : Type :=
  Z -> Z -> Readable -> Readable * option HubError.

(** What came out of the monitored side of the pipeline: the chunks
    passed through untouched and the error the stream ended with, if
    any; [pipelinePromise] is [None] when the pipeline resolved. *)
Record MonitorStreamResult := {
  monitoredStream : list Buffer * option HubError;
  pipelinePromise : option HubError;
  inputStreamAfter : Readable
}.

(** The [transform] of the pass-through, run over the chunks of the
    input: the counter grows by the chunk length, the callback runs, and
    the chunk is passed on unless the callback threw. *)
Fixpoint transform (progressCallback : StreamProgressCallback)
         (monitoredContentSize : Z) (todo : list Buffer)
         (inputStream : Readable) (passed : list Buffer)
  : Readable * list Buffer * option HubError :=
  match destroyed inputStream with
  | Some error => (inputStream, passed, Some error)
  | None =>
      match todo with
      | [] => (inputStream, passed, None)
      | chunk :: rest =>
          let monitoredContentSize := (monitoredContentSize + Z.of_nat (length chunk))%Z in
          match progressCallback monitoredContentSize (Z.of_nat (length chunk)) inputStream with
          | (inputStream, Some error) => (inputStream, passed, Some error)
          | (inputStream, None) =>
              transform progressCallback monitoredContentSize rest inputStream (passed ++ [chunk])
          end
      end
  end.

Definition monitorStreamProgress (inputStream : Readable)
           (progressCallback : StreamProgressCallback) : MonitorStreamResult :=
  let monitoredContentSize := 0%Z in
  let '(after, passed, outcome) :=
    transform progressCallback monitoredContentSize (chunks inputStream) inputStream [] in
  {| monitoredStream := (passed, outcome);
     pipelinePromise := outcome;
     inputStreamAfter := after |}.

(** [readStream]: collects a stream in memory; rejects when the stream
    ends with an error. *)
Definition readStream (stream : list Buffer * option HubError) : Result Buffer :=
  match snd stream with
  | Some error => Err error
  | None => Ok (concat (fst stream))
  end.

(** A [Date] is its time value: a whole number of milliseconds since the
    epoch (of magnitude at most 8.64e15, so that the quotient by 1000 is
    rounded as the exact quotient is), or [NaN] for an invalid date. *)
Inductive Date :=
| DateAt (time : Z)
| InvalidDate.

Definition getTime (date : Date) : JS.number :=
  match date with
  | DateAt time => JS.Finite (inject_Z time)
  | InvalidDate => JS.NaN
  end.

Definition dateToUnixTimeSeconds (date : Date) : JS.number :=
  JS.Math_round (JS.divide (getTime date) 1000).

(** [MemoryStream]: a writable that keeps the buffers written to it. *)
Record MemoryStream := { buffers : list Buffer }.

Definition newMemoryStream : MemoryStream := {| buffers := [] |}.

Definition _write (chunk : Buffer) (this : MemoryStream) : MemoryStream :=
  {| buffers := buffers this ++ [chunk] |}.

Definition getData (this : MemoryStream) : Buffer :=
  if (length (buffers this) =? 1)%nat then nth 0%nat (buffers this) []
  else concat (buffers this).

(** [pipelineAsync(stream, memStream)]: every chunk of the stream is
    written to the memory stream; the promise rejects when the stream
    ends with an error. *)
Definition pipelineInto (stream : list Buffer * option HubError) (memStream : MemoryStream)
  : Result MemoryStream :=
  let written := fold_left (fun this chunk => _write chunk this) (fst stream) memStream in
  match snd stream with
  | Some error => Err error
  | None => Ok written
  end.

End Utils.

(** *** [AsyncMutexScope] *)

Module AsyncMutexScope.

(** A promise is known by a handle.  The scope holds the set [_opened],
    the [finally] callbacks attached so far (the promise and the id the
    callback deletes) and, to observe the calls, the ids whose
    [spawnOwner] has been invoked. *)
Record t := {
  _opened : gset string;
  finalizers : list (nat * string);
  invoked : list string
}.

Inductive Spawned :=
| Returned (owner : nat)
| Threw (error : string).

(** [spawnOwner] runs synchronously on the scope it is invoked in (it
    may call [tryAcquire] itself) and returns a promise or throws. *)
Definition SpawnOwner : Type := t -> t * Spawned.

Inductive Acquired :=
| Return (acquired : bool)
| Throw (error : string).

Definition openedCount (scope : t) : nat := size (_opened scope).

Definition has (id : string) (scope : t) : bool := bool_decide (id ∈ _opened scope).

Definition add (id : string) (scope : t) : t :=
  {| _opened := {[id]} ∪ _opened scope;
     finalizers := finalizers scope;
     invoked := invoked scope |}.

Definition delete (id : string) (scope : t) : t :=
  {| _opened := _opened scope ∖ {[id]};
     finalizers := finalizers scope;
     invoked := invoked scope |}.

Definition finally (owner : nat) (id : string) (scope : t) : t :=
  {| _opened := _opened scope;
     finalizers := finalizers scope ++ [(owner, id)];
     invoked := invoked scope |}.

Definition invoke (id : string) (spawnOwner : SpawnOwner) (scope : t) : t * Spawned :=
  spawnOwner {| _opened := _opened scope;
                finalizers := finalizers scope;
                invoked := invoked scope ++ [id] |}.

Definition tryAcquire (id : string) (spawnOwner : SpawnOwner) (scope : t) : t * Acquired :=
  if has id scope then (scope, Return false)
  else
    let scope := add id scope in
    match invoke id spawnOwner scope with
    | (scope, Returned owner) => (finally owner id scope, Return true)
    | (scope, Threw error) => (delete id scope, Throw error)
    end.

Inductive Settlement :=
| Fulfilled
| Rejected (reason : string).

(** The promise [owner] settles: its [finally] callbacks run, whatever
    the settlement is, and are gone. *)
Definition settle (owner : nat) (how : Settlement) (scope : t) : t :=
  let run := filter (fun cb => cb.1 = owner) (finalizers scope) in
  {| _opened := foldr (fun cb opened => opened ∖ {[cb.2]}) (_opened scope) run;
     finalizers := filter (fun cb => cb.1 <> owner) (finalizers scope);
     invoked := invoked scope |}.

End AsyncMutexScope.

(** ** The driver interface

    [driverModel.ts] is not part of the sources; the argument and result
    types below are the ones [server.ts] builds and reads, and the
    operations are the ones it calls ([performRead] is the one the
    revocation cache needs). *)

Record PerformWriteArgs := {
  write_storageTopLevel : string;
  write_path : string;
  write_stream : list Buffer * option HubError;
  write_contentType : string;
  write_contentLength : JS.number
}.

Record PerformRenameArgs := {
  rename_path : string;
  rename_storageTopLevel : string;
  rename_newPath : string
}.

Record PerformDeleteArgs := {
  delete_storageTopLevel : string;
  delete_path : string
}.

Record PerformReadArgs := {
  read_storageTopLevel : string;
  read_path : string
}.

Record PerformListFilesArgs := {
  list_pathPrefix : string;
  list_page : option string
}.

Record FileInfo := {
  info_exists : bool;
  info_contentType : string;
  info_contentLength : Z;
  info_readStream : list Buffer
}.

Record ListFileStatEntry := {
  name : string;
  contentLength : Z;
  lastModifiedDate : Z;
  etag : string
}.

(** A page of a listing; [page] is the cursor, [None] for [null]. *)
Module ListPage.
Record t (E : Type) := {
  entries : list E;
  page : option string
}.
Arguments entries {E} _.
Arguments page {E} _.
End ListPage.
Abbreviation ListPage := ListPage.t.

Class DriverModel (D : Type) := {
  performWrite : PerformWriteArgs -> D -> Result string * D;
  performDelete : PerformDeleteArgs -> D -> Result unit * D;
  performRename : PerformRenameArgs -> D -> Result unit * D;
  performRead : PerformReadArgs -> D -> Result FileInfo * D;
  listFiles : PerformListFilesArgs -> D -> Result (ListPage string) * D;
  listFilesStat : PerformListFilesArgs -> D -> Result (ListPage ListFileStatEntry) * D;
  getReadURLPrefix : D -> string
}.

(** ** The world a handler runs in *)

(** What a handler did to its collaborators, in order. *)
Inductive Event :=
| CallPerformWrite (storageTopLevel path : string)
| CallPerformDelete (storageTopLevel path : string)
| CallPerformRename (storageTopLevel path newPath : string)
| CallPerformRead (storageTopLevel path : string)
| CallListFiles (pathPrefix : string) (page : option string)
| CallListFilesStat (pathPrefix : string) (page : option string)
| CallGetReadURLPrefix
| FetchProfile (url : string)
| ValidateProofs (address : string)
| StreamDestroyed (error : HubError).

#[global] Instance Event_eq_dec : EqDecision Event.
Proof. solve_decision. Defined.

Record World (D : Type) := {
  driver : D;
  cache : list (string * Z);
  cacheSize : nat;
  trace : list Event
}.
Arguments driver {D} _.
Arguments cache {D} _.
Arguments cacheSize {D} _.
Arguments trace {D} _.

(** Handlers are [async] functions that may throw: a computation takes
    the world and returns a value or an error, and the world after. *)
Definition Hub (D A : Type) : Type := World D -> Result A * World D.

Definition ret {D A} (a : A) : Hub D A := fun w => (Ok a, w).

Definition throw {D A} (e : HubError) : Hub D A := fun w => (Err e, w).

Definition bind {D A B} (m : Hub D A) (k : A -> Hub D B) : Hub D B :=
  fun w =>
    match m w with
    | (Ok a, w') => k a w'
    | (Err e, w') => (Err e, w')
    end.

Definition try_catch {D A} (m : Hub D A) (handler : HubError -> Hub D A) : Hub D A :=
  fun w =>
    match m w with
    | (Ok a, w') => (Ok a, w')
    | (Err e, w') => handler e w'
    end.

Definition lift {D A} (r : Result A) : Hub D A := fun w => (r, w).

Definition emit {D} (ev : Event) : Hub D unit :=
  fun w => (Ok tt, {| driver := driver w; cache := cache w;
                      cacheSize := cacheSize w; trace := trace w ++ [ev] |}).

(** A call on the driver: recorded, then run on the driver's state. *)
Definition call {D A} (ev : Event) (op : D -> Result A * D) : Hub D A :=
  fun w =>
    let '(r, d) := op (driver w) in
    (r, {| driver := d; cache := cache w;
           cacheSize := cacheSize w; trace := trace w ++ [ev] |}).

Notation "x <- m ;; k" := (bind m (fun x => k))
  (at level 100, m at next level, right associativity).
Notation "m ;;; k" := (bind m (fun _ => k))
  (at level 100, right associativity).

(** ** Tokens and scopes

    [authentication.ts] is not part of the sources. *)

Module Authentication.

Inductive AuthScopeType :=
| putFile
| putFilePrefix
| deleteFile
| deleteFilePrefix
| putFileArchival
| putFileArchivalPrefix.

#[global] Instance AuthScopeType_eq_dec : EqDecision AuthScopeType.
Proof. solve_decision. Defined.

Record AuthScopeEntry := { scope : AuthScopeType; domain : string }.

(** Modelled from the spec: the token's wire format and the signature
    checks of [authentication.ts] are missing from the sources.  A token
    is represented by what decoding and verifying it yields: whether the
    signature verifies against the leaf key, whether every link of the
    association chain verifies and is unexpired, whether the token
    itself is unexpired, the principal derived from the root public key,
    the hub-URL claims, the issued-at time, and the scopes list. *)
Record Token := {
  signatureValid : bool;
  associationValid : bool;
  unexpired : bool;
  signingPrincipal : string;
  hubUrl : list string;
  iat : Z;
  scopes : list AuthScopeEntry
}.

(** The value of the [Authorization] header: [Bearer <token>] with a
    token that decodes, or anything else. *)
Inductive Authorization :=
| Bearer (token : Token)
| Malformed (raw : string).

(** The six lists [server.ts] reads off the scopes. *)
Record AuthScopeValues := {
  writePrefixes : list string;
  writePaths : list string;
  deletePrefixes : list string;
  deletePaths : list string;
  writeArchivalPrefixes : list string;
  writeArchivalPaths : list string
}.

Definition domainsOf (kind : AuthScopeType) (entries : list AuthScopeEntry) : list string :=
  map domain (List.filter (fun entry => bool_decide (scope entry = kind)) entries).

(** Modelled from the spec: [getAuthenticationScopes] of
    [authentication.ts] is missing.  Scope extraction returns six
    disjoint lists keyed by action kind; a missing or malformed header,
    or a missing scope array, gives empty lists (no restriction). *)
Definition getAuthenticationScopes (authHeader : option Authorization) : AuthScopeValues :=
  let entries := match authHeader with
                 | Some (Bearer token) => scopes token
                 | _ => []
                 end in
  {| writePrefixes := domainsOf putFilePrefix entries;
     writePaths := domainsOf putFile entries;
     deletePrefixes := domainsOf deleteFilePrefix entries;
     deletePaths := domainsOf deleteFile entries;
     writeArchivalPrefixes := domainsOf putFileArchivalPrefix entries;
     writeArchivalPaths := domainsOf putFileArchival entries |}.

Definition stripTrailingSlash (s : string) : string :=
  if JS.endsWith s "/" then JS.slice_to (String.length s - 1) s else s.

Definition stripScheme (s : string) : string :=
  if JS.startsWith s "http://" then JS.slice_from 7 s
  else if JS.startsWith s "https://" then JS.slice_from 8 s
  else s.

Definition hubUrlMatches (serverName claim : string) : bool :=
  let server := stripTrailingSlash serverName in
  let claim := stripTrailingSlash claim in
  String.eqb claim server || String.eqb claim (stripScheme server).

(** Modelled from the spec: [validateAuthorizationHeader] of
    [authentication.ts] is missing.  The verification order of the auth verifier
    (decode; signature; association chain; signing principal equal to
    the requested principal; hub-URL claim against [serverName] when
    [requireCorrectHubUrl] is set; issued-at against the revocation
    clock when one is given).  Every failure is a [ValidationError].
    The spec gives [validHubUrls] no part in the checks.  The whitelist
    step is in [HubServer.validate]. *)
Definition validateAuthorizationHeader
           (authHeader : option Authorization) (serverName address : string)
           (requireCorrectHubUrl : bool) (validHubUrls : option (list string))
           (oldestValidTokenTimestamp : option Z) : Result string :=
  match authHeader with
  | Some (Bearer token) =>
      if negb (signatureValid token) then Err ValidationError
      else if negb (associationValid token) then Err ValidationError
      else if negb (unexpired token) then Err ValidationError
      else if negb (String.eqb (signingPrincipal token) address) then Err ValidationError
      else if requireCorrectHubUrl
              && negb (existsb (hubUrlMatches serverName) (hubUrl token))
           then Err ValidationError
      else match oldestValidTokenTimestamp with
           | Some oldest =>
               if (iat token <? oldest)%Z then Err ValidationError
               else Ok (signingPrincipal token)
           | None => Ok (signingPrincipal token)
           end
  | _ => Err ValidationError
  end.

End Authentication.

(** ** [ProofChecker.ts] *)

Module ProofChecker.

Record ProofCheckerConfigInterface := { config_proofsRequired : Z }.

Record t := { proofsRequired : Z }.

Definition constructor (proofsConfig : option ProofCheckerConfigInterface) : t :=
  match proofsConfig with
  | None => {| proofsRequired := 0 |}
  | Some proofsConfig => {| proofsRequired := config_proofsRequired proofsConfig |}
  end.

(** The profile claim and a social proof, as far as the checker looks
    into them. *)
Definition Profile := string.
Record Proof := { valid : bool }.

(** What is outside the hub: fetching [url] and verifying the profile
    token in it for [address] (node-fetch and [verifyProfileToken]), and
    [validateProofs] of the blockstack package.  [None] is a thrown
    error. *)
Record Network := {
  fetchVerified : string -> string -> option Profile;
  validateProofs : Profile -> string -> option (list Proof)
}.

Section Checker.
Context {D : Type} (net : Network).

Definition fetchProfile (address readURL : string) : Hub D Profile :=
  let filename := address ++ "/profile.json" in
  let url := readURL ++ filename in
  emit (FetchProfile url) ;;;
  match fetchVerified net url address with
  | Some claim => ret claim
  | None => throw OtherError
  end.

Definition validEnough (this : t) (validProofs : list Proof) : bool :=
  (proofsRequired this <=? Z.of_nat (length validProofs))%Z.

Definition checkProofs (this : t) (address filename readURL : string) : Hub D bool :=
  if (proofsRequired this =? 0)%Z || JS.endsWith filename "/profile.json" then
    ret true
  else
    validProofs <-
      try_catch
        (profile <- fetchProfile address readURL ;;
         emit (ValidateProofs address) ;;;
         match validateProofs net profile address with
         | Some proofs => ret (List.filter valid proofs)
         | None => throw OtherError
         end)
        (fun error => throw NotEnoughProofError) ;;
    if validEnough this validProofs then ret true
    else throw NotEnoughProofError.

End Checker.

End ProofChecker.

(** ** The revocation clock

    [revocations.ts] is not part of the sources. *)

Module AuthTimestampCache.

Definition AUTH_TIMESTAMP_FILE_NAME : string := ".authTimestamp".

Definition doubleQuote : string := String (ascii_of_nat 34) EmptyString.

Definition timestampPrefix : string :=
  "{" ++ doubleQuote ++ "timestamp" ++ doubleQuote ++ ":".

(** The JSON text of [{timestamp}]. *)
Definition encode (timestamp : Z) : Buffer :=
  buffer_of (timestampPrefix ++ JS.template_of_Z timestamp ++ "}").

Definition decode (content : Buffer) : option Z :=
  let text := string_of_list_byte content in
  if JS.startsWith text timestampPrefix then
    match JS.parseInt (Some (JS.slice_from (String.length timestampPrefix) text)) with
    | JS.Finite q => Some (Qfloor q)
    | _ => None
    end
  else None.

Fixpoint lookup (principal : string) (entries : list (string * Z)) : option Z :=
  match entries with
  | [] => None
  | (key, timestamp) :: rest =>
      if String.eqb key principal then Some timestamp else lookup principal rest
  end.

(** The entry becomes the most recently used one; the least recently
    used entries beyond the capacity are dropped. *)
Definition store (principal : string) (timestamp : Z) (capacity : nat)
           (entries : list (string * Z)) : list (string * Z) :=
  firstn capacity
         ((principal, timestamp)
            :: List.filter (fun entry => negb (String.eqb (fst entry) principal)) entries).

Section Cache.
Context {D : Type} `{DriverModel D}.

Definition remember (principal : string) (timestamp : Z) : Hub D unit :=
  fun w => (Ok tt, {| driver := driver w;
                      cache := store principal timestamp (cacheSize w) (cache w);
                      cacheSize := cacheSize w;
                      trace := trace w |}).

Definition cached (principal : string) : Hub D (option Z) :=
  fun w => (Ok (lookup principal (cache w)), w).

Definition readAuthTimestamp (principal : string) : Hub D Z :=
  try_catch
    (info <- call (CallPerformRead principal AUTH_TIMESTAMP_FILE_NAME)
                  (performRead {| read_storageTopLevel := principal;
                                  read_path := AUTH_TIMESTAMP_FILE_NAME |}) ;;
     if info_exists info then
       match decode (concat (info_readStream info)) with
       | Some timestamp => ret timestamp
       | None => throw OtherError
       end
     else ret 0%Z)
    (fun error => match error with
                  | DoesNotExist => ret 0%Z
                  | _ => throw error
                  end).

(** Modelled from the spec: [getAuthTimestamp] of [revocations.ts] is
    missing.  [get(principal)] returns the cached value if
    present, else reads the driver key [<principal>/.authTimestamp];
    when the driver returns [DoesNotExist] the value is 0; the result is
    cached. *)
Definition getAuthTimestamp (principal : string) : Hub D Z :=
  hit <- cached principal ;;
  match hit with
  | Some timestamp => remember principal timestamp ;;; ret timestamp
  | None =>
      timestamp <- readAuthTimestamp principal ;;
      remember principal timestamp ;;;
      ret timestamp
  end.

Definition writeAuthTimestamp (principal : string) (timestamp : Z) : Hub D string :=
  let content := encode timestamp in
  call (CallPerformWrite principal AUTH_TIMESTAMP_FILE_NAME)
       (performWrite {| write_storageTopLevel := principal;
                        write_path := AUTH_TIMESTAMP_FILE_NAME;
                        write_stream := ([content], None);
                        write_contentType := "application/json";
                        write_contentLength :=
                          JS.Finite (inject_Z (Z.of_nat (length content))) |}).

(** Modelled from the spec: [setAuthTimestamp] of [revocations.ts] is
    missing.  [set(principal, ts)] requires [ts >= current]
    (a lower value is silently ignored), writes the driver key, then
    updates the cache. *)
Definition setAuthTimestamp (principal : string) (timestamp : Z) : Hub D unit :=
  current <- getAuthTimestamp principal ;;
  if (timestamp <? current)%Z then ret tt
  else
    writeAuthTimestamp principal timestamp ;;;
    remember principal timestamp.

End Cache.

End AuthTimestampCache.

(** ** [server.ts]: class [HubServer] *)

Module HubServer.

Import Authentication.

Record HubConfigInterface := {
  config_whitelist : option (list string);
  config_serverName : string;
  config_validHubUrls : option (list string);
  config_readURL : option string;
  config_requireCorrectHubUrl : option bool;
  config_authTimestampCacheSize : nat;
  config_maxFileUploadSize : option Q
}.

(** The fields of the server that do not change; the driver and the
    revocation cache are in the world. *)
Record t := {
  proofChecker : ProofChecker.t;
  whitelist : option (list string);
  serverName : string;
  readURL : option string;
  requireCorrectHubUrl : bool;
  validHubUrls : option (list string);
  maxFileUploadSizeMB : Q;
  maxFileUploadSizeBytes : Q
}.

(** The request headers a handler reads.  [content_length] is the header
    as text ([None] when it is missing); [authorization] is the header
    already decoded, see [Authentication.Authorization]. *)
Record RequestHeaders := {
  content_type : option string;
  content_length : option string;
  authorization : option Authorization
}.

Definition constructor (proofChecker : ProofChecker.t) (config : HubConfigInterface) : t :=
  let maxFileUploadSizeMB :=
    match config_maxFileUploadSize config with
    | Some size => if Qeq_bool size 0 then 20%Q else size
    | None => 20%Q
    end in
  {| proofChecker := proofChecker;
     whitelist := config_whitelist config;
     serverName := config_serverName config;
     readURL := config_readURL config;
     requireCorrectHubUrl :=
       match config_requireCorrectHubUrl config with
       | Some b => b
       | None => false
       end;
     validHubUrls := config_validHubUrls config;
     maxFileUploadSizeMB := maxFileUploadSizeMB;
     maxFileUploadSizeBytes := Utils.megabytesToBytes maxFileUploadSizeMB |}.

(** The world of a freshly constructed server. *)
Definition newWorld {D} (driver : D) (config : HubConfigInterface) : World D :=
  {| driver := driver;
     cache := [];
     cacheSize := config_authTimestampCacheSize config;
     trace := [] |}.

Definition getFileName (filePath : string) : string :=
  let pathParts := JS.split "/" filePath in
  let fileName := List.last pathParts EmptyString in
  fileName.

(** [now] is [Date.now()] and [rnd] the randomness behind
    [generateUniqueID()]. *)
Definition getHistoricalFileName (now : N) (rnd : nat -> nat) (filePath : string) : string :=
  let fileName := getFileName filePath in
  let filePathPrefix :=
    JS.slice_to (String.length filePath - String.length fileName) filePath in
  let historicalName :=
    ".history." ++ JS.template_of_N now ++ "." ++ Utils.generateUniqueID rnd
                ++ "." ++ fileName in
  let historicalPath := filePathPrefix ++ historicalName in
  historicalPath.

Definition isHistoricalFile (filePath : string) : bool :=
  let fileName := getFileName filePath in
  let isHistoricalFile := JS.startsWith fileName ".history." in
  isHistoricalFile.

Definition isArchivalRestricted (scopes : AuthScopeValues) : bool :=
  (0 <? length (writeArchivalPaths scopes))%nat
  || (0 <? length (writeArchivalPrefixes scopes))%nat.

Definition checkArchivalRestrictions (address path : string) (scopes : AuthScopeValues)
  : Result bool :=
  let isArchivalRestricted := isArchivalRestricted scopes in
  if isArchivalRestricted then
    let match_ :=
      JS.bangbang (JS.find (fun p => JS.startsWith path p) (writeArchivalPrefixes scopes)) in
    let match_ :=
      if negb match_
      then JS.bangbang (JS.find (fun p => String.eqb path p) (writeArchivalPaths scopes))
      else match_ in
    if negb match_ then Err ValidationError
    else Ok isArchivalRestricted
  else Ok isArchivalRestricted.

(** The scope block of [handleRequest], on [writePrefixes] and
    [writePaths], and of [handleDelete], on [deletePrefixes] and
    [deletePaths]: the two blocks are the same code. *)
Definition checkScopes (path : string) (prefixes paths : list string) : Result unit :=
  if (0 <? length prefixes)%nat || (0 <? length paths)%nat then
    let match_ := JS.bangbang (JS.find (fun p => JS.startsWith path p) prefixes) in
    let match_ :=
      if negb match_
      then JS.bangbang (JS.find (fun p => String.eqb path p) paths)
      else match_ in
    if negb match_ then Err ValidationError
    else Ok tt
  else Ok tt.

(** The rewrite of the URL that [performWrite] returned, at the end of
    [handleRequest]. *)
Definition rewriteReadURL (readURLPrefix driverPrefix readURL : string) : string :=
  if negb (String.eqb readURLPrefix driverPrefix) && JS.startsWith readURL driverPrefix then
    let postFix := JS.slice_from (String.length driverPrefix) readURL in
    readURLPrefix ++ postFix
  else readURL.

(** The check of the declared length in [handleRequest]: a valid
    content-length over the maximum is refused at once. *)
Definition checkContentLength (this : t) (contentLengthBytes : JS.number) : Result unit :=
  let isLengthFinite :=
    JS.Number_isFinite contentLengthBytes && JS.gt contentLengthBytes (JS.Finite 0) in
  if isLengthFinite
     && JS.gt contentLengthBytes (JS.Finite (maxFileUploadSizeBytes this))
  then Err PayloadTooLargeError
  else Ok tt.

(** The limit the monitored stream is held to in [handleRequest]. *)
Definition maxContentLength (this : t) (contentLengthBytes : JS.number) : Q :=
  match contentLengthBytes with
  | JS.Finite bytes =>
      if JS.Number_isFinite contentLengthBytes && JS.gt contentLengthBytes (JS.Finite 0)
      then bytes else maxFileUploadSizeBytes this
  | _ => maxFileUploadSizeBytes this
  end.

(** The progress callback [handleRequest] hands to
    [monitorStreamProgress]: past the limit it destroys the request
    stream with the error and throws it. *)
Definition progressCallback (maxContentLength : Q) : Utils.StreamProgressCallback :=
  fun totalBytes chunkBytes stream =>
    if JS.Qltb maxContentLength (inject_Z totalBytes) then
      let error := PayloadTooLargeError in
      (Utils.destroy error stream, Some error)
    else (stream, None).

Section Handlers.
Context {D : Type} `{DriverModel D} (net : ProofChecker.Network).

Definition driverReadURLPrefix : Hub D string :=
  call CallGetReadURLPrefix (fun d => (Ok (getReadURLPrefix d), d)).

Definition getReadURLPrefix (this : t) : Hub D string :=
  match readURL this with
  | Some url => if JS.truthy url then ret url else driverReadURLPrefix
  | None => driverReadURLPrefix
  end.

Definition validate (this : t) (address : string) (requestHeaders : RequestHeaders)
           (oldestValidTokenTimestamp : option Z) : Hub D unit :=
  signingAddress <-
    lift (validateAuthorizationHeader
            (authorization requestHeaders)
            (serverName this) address
            (requireCorrectHubUrl this)
            (validHubUrls this)
            oldestValidTokenTimestamp) ;;
  match whitelist this with
  | Some whitelist =>
      if negb (JS.includes whitelist signingAddress) then throw ValidationError
      else ret tt
  | None => ret tt
  end.

Definition handleAuthBump (this : t) (address : string) (oldestValidTimestamp : Z)
           (requestHeaders : RequestHeaders) : Hub D unit :=
  validate this address requestHeaders None ;;;
  AuthTimestampCache.setAuthTimestamp address oldestValidTimestamp.

(** The result of a listing is one of the two page types; an entry of
    the returned page may be [null]. *)
Inductive ListFilesAnyResult :=
| StatResult (result : ListPage (option ListFileStatEntry))
| PlainResult (result : ListPage (option string)).

Definition handleListFiles (this : t) (address : string) (page : option string)
           (stat : bool) (requestHeaders : RequestHeaders) : Hub D ListFilesAnyResult :=
  oldestValidTokenTimestamp <- AuthTimestampCache.getAuthTimestamp address ;;
  let scopes := getAuthenticationScopes (authorization requestHeaders) in
  let isArchivalRestricted := isArchivalRestricted scopes in
  validate this address requestHeaders (Some oldestValidTokenTimestamp) ;;;
  let listFilesArgs := {| list_pathPrefix := address; list_page := page |} in
  if stat then
    listFileResult <- call (CallListFilesStat address page) (listFilesStat listFilesArgs) ;;
    if isArchivalRestricted && (0 <? length (ListPage.entries listFileResult))%nat then
      let kept := List.filter (fun entry => negb (isHistoricalFile (name entry)))
                              (ListPage.entries listFileResult) in
      if (length kept =? 0)%nat && JS.bangbang (ListPage.page listFileResult) then
        ret (StatResult {| ListPage.entries := map Some kept ++ [None];
                           ListPage.page := ListPage.page listFileResult |})
      else
        ret (StatResult {| ListPage.entries := map Some kept;
                           ListPage.page := ListPage.page listFileResult |})
    else
      ret (StatResult {| ListPage.entries := map Some (ListPage.entries listFileResult);
                         ListPage.page := ListPage.page listFileResult |})
  else
    listFileResult <- call (CallListFiles address page) (listFiles listFilesArgs) ;;
    if isArchivalRestricted && (0 <? length (ListPage.entries listFileResult))%nat then
      let kept := List.filter (fun entry => negb (isHistoricalFile entry))
                              (ListPage.entries listFileResult) in
      if (length kept =? 0)%nat && JS.bangbang (ListPage.page listFileResult) then
        ret (PlainResult {| ListPage.entries := map Some kept ++ [None];
                            ListPage.page := ListPage.page listFileResult |})
      else
        ret (PlainResult {| ListPage.entries := map Some kept;
                            ListPage.page := ListPage.page listFileResult |})
    else
      ret (PlainResult {| ListPage.entries := map Some (ListPage.entries listFileResult);
                          ListPage.page := ListPage.page listFileResult |}).

Definition handleDelete (this : t) (now : N) (rnd : nat -> nat)
           (address path : string) (requestHeaders : RequestHeaders) : Hub D unit :=
  oldestValidTokenTimestamp <- AuthTimestampCache.getAuthTimestamp address ;;
  validate this address requestHeaders (Some oldestValidTokenTimestamp) ;;;
  let scopes := getAuthenticationScopes (authorization requestHeaders) in
  isArchivalRestricted <- lift (checkArchivalRestrictions address path scopes) ;;
  lift (checkScopes path (deletePrefixes scopes) (deletePaths scopes)) ;;;
  readURLPrefix <- getReadURLPrefix this ;;
  ProofChecker.checkProofs net (proofChecker this) address path readURLPrefix ;;;
  if (isArchivalRestricted : bool) then
    let historicalPath := getHistoricalFileName now rnd path in
    let renameCommand := {| rename_path := path;
                            rename_storageTopLevel := address;
                            rename_newPath := historicalPath |} in
    call (CallPerformRename address path historicalPath) (performRename renameCommand)
  else
    let deleteCommand := {| delete_storageTopLevel := address;
                            delete_path := path |} in
    call (CallPerformDelete address path) (performDelete deleteCommand).

Definition handleRequest (this : t) (now : N) (rnd : nat -> nat)
           (address path : string) (requestHeaders : RequestHeaders)
           (stream : Utils.Readable) : Hub D string :=
  oldestValidTokenTimestamp <- AuthTimestampCache.getAuthTimestamp address ;;
  validate this address requestHeaders (Some oldestValidTokenTimestamp) ;;;
  let contentType :=
    match content_type requestHeaders with
    | Some contentType => contentType
    | None => "application/octet-stream"
    end in
  let scopes := getAuthenticationScopes (authorization requestHeaders) in
  isArchivalRestricted <- lift (checkArchivalRestrictions address path scopes) ;;
  lift (checkScopes path (writePrefixes scopes) (writePaths scopes)) ;;;
  readURLPrefix <- getReadURLPrefix this ;;
  ProofChecker.checkProofs net (proofChecker this) address path readURLPrefix ;;;
  let contentLengthHeader := content_length requestHeaders in
  let contentLengthBytes := JS.parseInt contentLengthHeader in
  lift (checkContentLength this contentLengthBytes) ;;;
  (if (isArchivalRestricted : bool) then
     let historicalPath := getHistoricalFileName now rnd path in
     try_catch
       (call (CallPerformRename address path historicalPath)
             (performRename {| rename_path := path;
                               rename_storageTopLevel := address;
                               rename_newPath := historicalPath |}))
       (fun error => match error with
                     | DoesNotExist => ret tt
                     | _ => throw error
                     end)
   else ret tt) ;;;
  let maxContentLength := maxContentLength this contentLengthBytes in
  let monitored := Utils.monitorStreamProgress stream (progressCallback maxContentLength) in
  let writeCommand := {| write_storageTopLevel := address;
                         write_path := path;
                         write_stream := Utils.monitoredStream monitored;
                         write_contentType := contentType;
                         write_contentLength := contentLengthBytes |} in
  (* [Promise.all] of the driver's write and the pipeline: the driver
     consumes the monitored stream; the handler is told of the
     pipeline's rejection first (the pipeline was attached before the
     driver was), else of the driver's. *)
  written <- try_catch
               (url <- call (CallPerformWrite address path) (performWrite writeCommand) ;;
                ret (Ok url))
               (fun error => ret (Err error)) ;;
  match Utils.destroyed (Utils.inputStreamAfter monitored) with
  | Some error => emit (StreamDestroyed error)
  | None => ret tt
  end ;;;
  readURL <- match Utils.pipelinePromise monitored, written with
             | Some error, _ => throw error
             | None, Err error => throw error
             | None, Ok url => ret url
             end ;;
  driverPrefix <- driverReadURLPrefix ;;
  readURLPrefix <- getReadURLPrefix this ;;
  ret (rewriteReadURL readURLPrefix driverPrefix readURL).

End Handlers.

End HubServer.

(** ** A driver

    The drivers are not part of the sources. *)

Module InMemoryDriver.

Record StoredObject := {
  content : Buffer;
  contentType : string
}.

Record t := {
  files : gmap string StoredObject;
  readUrl : string;
  pageSize : nat
}.

Definition key (storageTopLevel path : string) : string :=
  storageTopLevel ++ "/" ++ path.

Definition withFiles (this : t) (files : gmap string StoredObject) : t :=
  {| files := files; readUrl := readUrl this; pageSize := pageSize this |}.

(** Modelled from the spec: the drivers are missing.  [performWrite]
    consumes the stream to its
    end and returns the read URL in the driver-prefix form; on an error
    of the stream it fails with that error and stores nothing. *)
Definition performWrite (args : PerformWriteArgs) (this : t) : Result string * t :=
  match Utils.readStream (write_stream args) with
  | Err error => (Err error, this)
  | Ok contentBuffer =>
      let k := key (write_storageTopLevel args) (write_path args) in
      (Ok (readUrl this ++ k),
       withFiles this (<[k := {| content := contentBuffer;
                                 contentType := write_contentType args |}]> (files this)))
  end.

(** Modelled from the spec: the drivers are missing.  [performDelete]
    fails with [DoesNotExist]
    when the object is absent. *)
Definition performDelete (args : PerformDeleteArgs) (this : t) : Result unit * t :=
  let k := key (delete_storageTopLevel args) (delete_path args) in
  match files this !! k with
  | None => (Err DoesNotExist, this)
  | Some _ => (Ok tt, withFiles this (delete k (files this)))
  end.

(** Modelled from the spec: the drivers are missing.  [performRename] is
    a move; it fails with
    [DoesNotExist] when the source is absent and may overwrite the
    destination. *)
Definition performRename (args : PerformRenameArgs) (this : t) : Result unit * t :=
  let k := key (rename_storageTopLevel args) (rename_path args) in
  let k' := key (rename_storageTopLevel args) (rename_newPath args) in
  match files this !! k with
  | None => (Err DoesNotExist, this)
  | Some object => (Ok tt, withFiles this (<[k' := object]> (delete k (files this))))
  end.

(** Modelled from the spec: the drivers are missing.  [performRead]
    returns the object's metadata and bytes; an absent object is
    [DoesNotExist]. *)
Definition performRead (args : PerformReadArgs) (this : t) : Result FileInfo * t :=
  let k := key (read_storageTopLevel args) (read_path args) in
  match files this !! k with
  | None => (Err DoesNotExist, this)
  | Some object =>
      (Ok {| info_exists := true;
             info_contentType := contentType object;
             info_contentLength := Z.of_nat (length (content object));
             info_readStream := [content object] |}, this)
  end.

Definition lexLe (a b : string) : Prop := Is_true (String.leb a b).

#[global] Instance lexLe_dec : RelDecision lexLe.
Proof. intros a b. unfold lexLe. apply _. Defined.

(** The names below [pathPrefix/], in lexicographic order. *)
Definition namesUnder (pathPrefix : string) (this : t) : list string :=
  let under := pathPrefix ++ "/" in
  merge_sort lexLe
             (map (JS.slice_from (String.length under))
                  (List.filter (fun k => JS.startsWith k under)
                               (map fst (map_to_list (files this))))).

Definition startOf (page : option string) : nat :=
  match JS.parseInt page with
  | JS.Finite q => Z.to_nat (Qfloor q)
  | _ => 0%nat
  end.

(** Modelled from the spec: the drivers are missing.  [listFiles]
    returns a page of names in
    lexicographic order, of the configured page size, with a cursor when
    more names follow.  The cursor is the index of the next name. *)
Definition listFiles (args : PerformListFilesArgs) (this : t)
  : Result (ListPage string) * t :=
  let names := namesUnder (list_pathPrefix args) this in
  let start := startOf (list_page args) in
  let stop := (start + pageSize this)%nat in
  (Ok {| ListPage.entries := firstn (pageSize this) (skipn start names);
         ListPage.page := if (stop <? length names)%nat
                          then Some (JS.template_of_N (N.of_nat stop))
                          else None |}, this).

Definition statOf (storageTopLevel : string) (this : t) (entry : string) : ListFileStatEntry :=
  {| name := entry;
     contentLength :=
       match files this !! key storageTopLevel entry with
       | Some object => Z.of_nat (length (content object))
       | None => 0
       end;
     lastModifiedDate := 0;
     etag := EmptyString |}.

(** Modelled from the spec: the drivers are missing.  [listFilesStat] is
    [listFiles] with per-entry metadata (sizes only; times and tags are
    not kept by this store). *)
Definition listFilesStat (args : PerformListFilesArgs) (this : t)
  : Result (ListPage ListFileStatEntry) * t :=
  match listFiles args this with
  | (Ok result, this') =>
      (Ok {| ListPage.entries := map (statOf (list_pathPrefix args) this)
                                     (ListPage.entries result);
             ListPage.page := ListPage.page result |}, this')
  | (Err error, this') => (Err error, this')
  end.

Definition getReadURLPrefix (this : t) : string := readUrl this.

#[global] Instance driverModel : DriverModel t :=
  Build_DriverModel t performWrite performDelete performRename performRead
                    listFiles listFilesStat getReadURLPrefix.

End InMemoryDriver.

(** A driver that answers every listing with the page it holds; nothing
    is stored in it. *)

Module CannedListing.

Definition t : Type := ListPage string.

Definition statOf (entry : string) : ListFileStatEntry :=
  {| name := entry; contentLength := 0; lastModifiedDate := 0; etag := EmptyString |}.

#[global] Instance driverModel : DriverModel t :=
  Build_DriverModel t
    (fun _ this => (Err DriverError, this))
    (fun _ this => (Err DoesNotExist, this))
    (fun _ this => (Err DoesNotExist, this))
    (fun _ this => (Err DoesNotExist, this))
    (fun _ this => (Ok this, this))
    (fun _ this => (Ok {| ListPage.entries := map statOf (ListPage.entries this);
                          ListPage.page := ListPage.page this |}, this))
    (fun _ => "http://canned.example/").

End CannedListing.

(** A driver whose store cannot be changed: every write, delete and
    rename fails with [DriverError]; nothing is stored in it. *)

Module SealedDriver.

Definition t : Type := unit.

#[global] Instance driverModel : DriverModel t :=
  Build_DriverModel t
    (fun _ this => (Err DriverError, this))
    (fun _ this => (Err DriverError, this))
    (fun _ this => (Err DriverError, this))
    (fun _ this => (Err DoesNotExist, this))
    (fun _ this => (Ok {| ListPage.entries := []; ListPage.page := None |}, this))
    (fun _ this => (Ok {| ListPage.entries := []; ListPage.page := None |}, this))
    (fun _ => "http://sealed.example/").

End SealedDriver.

(** ** Sample data *)

Module Sample.

Import Authentication HubServer.

Definition principal : string := "1Lbcfr7sAHTD9CgdQo3HTMTkV8LK4ZnX71".

(** No profile can be fetched. *)
Definition network : ProofChecker.Network :=
  {| ProofChecker.fetchVerified := fun _ _ => None;
     ProofChecker.validateProofs := fun _ _ => None |}.

Definition config : HubConfigInterface :=
  {| config_whitelist := None;
     config_serverName := "hub.example";
     config_validHubUrls := None;
     config_readURL := None;
     config_requireCorrectHubUrl := None;
     config_authTimestampCacheSize := 2;
     config_maxFileUploadSize := Some 30%Q |}.

Definition hub : HubServer.t := constructor (ProofChecker.constructor None) config.

Definition emptyStore : InMemoryDriver.t :=
  {| InMemoryDriver.files := ∅;
     InMemoryDriver.readUrl := "http://driver.example/";
     InMemoryDriver.pageSize := 10 |}.

Definition world : World InMemoryDriver.t := newWorld emptyStore config.

Definition token (scopes : list AuthScopeEntry) (iat : Z) : Token :=
  {| signatureValid := true;
     associationValid := true;
     unexpired := true;
     signingPrincipal := principal;
     hubUrl := [];
     iat := iat;
     scopes := scopes |}.

Definition headers (scopes : list AuthScopeEntry) (iat : Z) (contentLength : option string)
  : RequestHeaders :=
  {| content_type := None;
     content_length := contentLength;
     authorization := Some (Bearer (token scopes iat)) |}.

Definition anonymous (contentLength : option string) : RequestHeaders :=
  {| content_type := None;
     content_length := contentLength;
     authorization := None |}.

Definition stream (chunks : list string) : Utils.Readable :=
  {| Utils.chunks := map buffer_of chunks; Utils.destroyed := None |}.

Definition rnd : nat -> nat := fun i => (7 * i)%nat.

(** A hub whose configured maximum is negative. *)
Definition negativeLimitHub : HubServer.t :=
  constructor (ProofChecker.constructor None)
              {| config_whitelist := None;
                 config_serverName := "hub.example";
                 config_validHubUrls := None;
                 config_readURL := None;
                 config_requireCorrectHubUrl := None;
                 config_authTimestampCacheSize := 2;
                 config_maxFileUploadSize := Some (-1)%Q |}.

(** The world after [foo/bar] was uploaded once (5 bytes, no scopes). *)
Definition worldWithFooBar : World InMemoryDriver.t :=
  snd (handleRequest network hub 1000%N rnd principal "foo/bar"
                     (headers [] 5 None) (stream ["hello"]) world).

(** The world after the principal bumped its revocation clock to 1000. *)
Definition worldBumped : World InMemoryDriver.t :=
  snd (handleAuthBump hub principal 1000 (headers [] 1001 None) world).

(** An owner that tries to take its own key again while it starts. *)
Definition reentrantOwner (id : string) (inner : AsyncMutexScope.SpawnOwner)
  : AsyncMutexScope.SpawnOwner :=
  fun scope =>
    match AsyncMutexScope.tryAcquire id inner scope with
    | (scope, AsyncMutexScope.Return true) => (scope, AsyncMutexScope.Threw "acquired twice")
    | (scope, _) => (scope, AsyncMutexScope.Returned 7%nat)
    end.

End Sample.

(** ** Predicates used to state the properties *)

(** [c] occurs in [s]. *)
Fixpoint hasChar (c : ascii) (s : string) : bool :=
  match s with
  | EmptyString => false
  | String d s' => Ascii.eqb c d || hasChar c s'
  end.

(** Every character of [s] is one of [0-9A-Za-z]. *)
Definition alphanumeric (s : string) : Prop :=
  Forall (fun c => hasChar c Utils.alphabet = true) (list_ascii_of_string s).

(** The byte count of a stream. *)
Definition totalBytes (stream : Utils.Readable) : Z :=
  Z.of_nat (length (concat (Utils.chunks stream))).

(** The events that leave the store as it is. *)
Definition readOnly (ev : Event) : bool :=
  match ev with
  | CallPerformRead _ _ | CallGetReadURLPrefix | FetchProfile _ | ValidateProofs _ => true
  | _ => false
  end.

(** The calls that change the store. *)
Definition mutating (ev : Event) : bool :=
  match ev with
  | CallPerformWrite _ _ | CallPerformDelete _ _ | CallPerformRename _ _ _ => true
  | _ => false
  end.

Section Admission.
Context {D : Type} `{DriverModel D} (net : ProofChecker.Network).
Import Authentication HubServer.

(** The steps [handleRequest] and [handleDelete] take before they act
    pass on [w] and leave [w']: the revocation clock is read, the token
    validates against it, the archival scopes and the scopes of the
    action (the two lists given) admit the path, and the proof check
    succeeds.  [archival] is what [checkArchivalRestrictions]
    returned. *)
Definition admitted (this : HubServer.t) (address path : string)
           (requestHeaders : RequestHeaders)
           (prefixes paths : AuthScopeValues -> list string)
           (w : World D) (archival : bool) (w' : World D) : Prop :=
  exists oldest w1 w2 readURLPrefix w3 enough,
    AuthTimestampCache.getAuthTimestamp address w = (Ok oldest, w1)
    /\ validate this address requestHeaders (Some oldest) w1 = (Ok tt, w2)
    /\ checkArchivalRestrictions
         address path (getAuthenticationScopes (authorization requestHeaders))
       = Ok archival
    /\ checkScopes path
                   (prefixes (getAuthenticationScopes (authorization requestHeaders)))
                   (paths (getAuthenticationScopes (authorization requestHeaders)))
       = Ok tt
    /\ HubServer.getReadURLPrefix this w2 = (Ok readURLPrefix, w3)
    /\ ProofChecker.checkProofs net (proofChecker this) address path readURLPrefix w3
       = (Ok enough, w').

(** [w'] follows [w] by read-only events. *)
Definition readsFrom (w w' : World D) : Prop :=
  exists evs, trace w' = (trace w ++ evs)%list /\ forallb readOnly evs = true.

(** Every run of [m] relates the world before to the world after by
    [R]. *)
Definition respects (R : World D -> World D -> Prop) {A} (m : Hub D A) : Prop :=
  forall w r w', m w = (r, w') -> R w w'.

(** What the driver lists, as names and cursor, in either mode. *)
Definition driverListing (stat : bool) (args : PerformListFilesArgs) (d : D)
  : Result (list string * option string) * D :=
  if stat then
    match listFilesStat args d with
    | (Ok result, d') =>
        (Ok (map name (ListPage.entries result), ListPage.page result), d')
    | (Err error, d') => (Err error, d')
    end
  else
    match listFiles args d with
    | (Ok result, d') => (Ok (ListPage.entries result, ListPage.page result), d')
    | (Err error, d') => (Err error, d')
    end.

End Admission.

(** No run of [m] fails with the error [e]. *)
Definition neverFails {D A} (e : HubError) (m : Hub D A) : Prop :=
  forall w w', m w <> (Err e, w').

(** The names and the cursor of a returned page. *)
Definition namesOf (result : HubServer.ListFilesAnyResult) : list (option string) :=
  match result with
  | HubServer.StatResult page => map (option_map name) (ListPage.entries page)
  | HubServer.PlainResult page => ListPage.entries page
  end.

Definition pageOf (result : HubServer.ListFilesAnyResult) : option string :=
  match result with
  | HubServer.StatResult page => ListPage.page page
  | HubServer.PlainResult page => ListPage.page page
  end.


(** * Properties *)

(** ** Strings *)

Section StringFacts.

Lemma append_cons (c : ascii) (p s : string) : String c p ++ s = String c (p ++ s).
Proof. reflexivity. Qed.

Lemma startsWith_refl_app (p s : string) : JS.startsWith (p ++ s) p = true.
Proof.
  induction p as [|c p IH]; [reflexivity|].
  rewrite append_cons. simpl. rewrite Ascii.eqb_refl. exact IH.
Qed.

Lemma startsWith_self (p : string) : JS.startsWith p p = true.
Proof. induction p as [|c p IH]; simpl; [reflexivity|]. rewrite Ascii.eqb_refl. exact IH. Qed.

Lemma startsWith_decompose (s p : string) :
  JS.startsWith s p = true -> s = p ++ JS.slice_from (String.length p) s.
Proof.
  revert s. induction p as [|c p IH]; intros s Hs; simpl in *; [reflexivity|].
  destruct s as [|d s]; [discriminate|].
  destruct (Ascii.eqb c d) eqn:E; [|discriminate].
  apply Ascii.eqb_eq in E. subst d. rewrite append_cons. f_equal. apply IH, Hs.
Qed.

(** Two prefixes of one string are comparable. *)
Lemma startsWith_app_comparable (h r d : string) :
  JS.startsWith (h ++ r) d = true ->
  JS.startsWith h d = true \/ JS.startsWith d h = true.
Proof.
  revert d. induction h as [|c h IH]; intros d Hd.
  - right. destruct d; reflexivity.
  - destruct d as [|e d]; [left; reflexivity|].
    rewrite append_cons in Hd. simpl in *.
    rewrite (Ascii.eqb_sym c e).
    destruct (Ascii.eqb e c) eqn:E; [|discriminate].
    apply IH, Hd.
Qed.

Lemma slice_from_app (p s : string) : JS.slice_from (String.length p) (p ++ s) = s.
Proof. induction p as [|c p IH]; [reflexivity|]. rewrite append_cons. exact IH. Qed.

Lemma truthy_nonempty (s : string) : JS.truthy s = true <-> s <> EmptyString.
Proof.
  unfold JS.truthy. destruct (String.eqb s EmptyString) eqn:E; simpl.
  - apply String.eqb_eq in E. split; [discriminate|congruence].
  - apply String.eqb_neq in E. split; [intros _; exact E|reflexivity].
Qed.

End StringFacts.

(** ** The state-and-error monad *)

Section MonadFacts.
Context {D : Type}.

Lemma bind_ok {A B} (m : Hub D A) (k : A -> Hub D B) w a w' :
  m w = (Ok a, w') -> bind m k w = k a w'.
Proof. unfold bind. intros ->. reflexivity. Qed.

Lemma bind_err {A B} (m : Hub D A) (k : A -> Hub D B) w e w' :
  m w = (Err e, w') -> bind m k w = (Err e, w').
Proof. unfold bind. intros ->. reflexivity. Qed.

Lemma lift_ok {A} (r : Result A) (a : A) (w : World D) :
  r = Ok a -> lift r w = (Ok a, w).
Proof. intros ->. reflexivity. Qed.

End MonadFacts.

(** ** The read-URL rewrite *)

Section RewriteFacts.
Import HubServer.

Lemma rewriteReadURL_strips (readURLPrefix driverPrefix readURL : string) :
  readURLPrefix <> driverPrefix ->
  JS.startsWith readURL driverPrefix = true ->
  rewriteReadURL readURLPrefix driverPrefix readURL
  = readURLPrefix ++ JS.slice_from (String.length driverPrefix) readURL.
Proof.
  intros Hne Hst. unfold rewriteReadURL. rewrite Hst.
  apply String.eqb_neq in Hne. rewrite Hne. reflexivity.
Qed.

Lemma rewriteReadURL_keeps (readURLPrefix driverPrefix readURL : string) :
  readURLPrefix = driverPrefix \/ JS.startsWith readURL driverPrefix = false ->
  rewriteReadURL readURLPrefix driverPrefix readURL = readURL.
Proof.
  intros [-> | Hst]; unfold rewriteReadURL.
  - rewrite String.eqb_refl. reflexivity.
  - rewrite Hst, andb_false_r. reflexivity.
Qed.

(** The rewrite applied to a URL that the driver made is not a fixed
    point of the rewrite when the hub's prefix extends the driver's. *)
Lemma rewriteReadURL_twice_differs :
  rewriteReadURL "http://x/hub/" "http://x/" "http://x/P/f" = "http://x/hub/P/f"
  /\ rewriteReadURL "http://x/hub/" "http://x/"
       (rewriteReadURL "http://x/hub/" "http://x/" "http://x/P/f")
     = "http://x/hub/hub/P/f"
  /\ rewriteReadURL "http://x/hub/" "http://x/"
       (rewriteReadURL "http://x/hub/" "http://x/" "http://x/P/f")
     <> rewriteReadURL "http://x/hub/" "http://x/" "http://x/P/f".
Proof. repeat split; vm_compute; congruence. Qed.

(** C5, amended.  The rewrite strips the driver prefix and prepends the
    hub prefix when the two prefixes differ and the URL starts with the
    driver prefix, and returns the URL unchanged otherwise; applied
    twice it equals applied once whenever the two prefixes are equal or
    neither is a prefix of the other. *)
Theorem rewriteReadURL_idempotent (readURLPrefix driverPrefix readURL : string) :
  readURLPrefix = driverPrefix
  \/ (JS.startsWith readURLPrefix driverPrefix = false
      /\ JS.startsWith driverPrefix readURLPrefix = false) ->
  (readURLPrefix <> driverPrefix -> JS.startsWith readURL driverPrefix = true ->
   rewriteReadURL readURLPrefix driverPrefix readURL
   = readURLPrefix ++ JS.slice_from (String.length driverPrefix) readURL)
  /\ (readURLPrefix = driverPrefix \/ JS.startsWith readURL driverPrefix = false ->
      rewriteReadURL readURLPrefix driverPrefix readURL = readURL)
  /\ rewriteReadURL readURLPrefix driverPrefix
       (rewriteReadURL readURLPrefix driverPrefix readURL)
     = rewriteReadURL readURLPrefix driverPrefix readURL.
Proof.
  intros Hpre. split; [apply rewriteReadURL_strips|].
  split; [apply rewriteReadURL_keeps|].
  destruct Hpre as [Heq | [Hhd Hdh]].
  - rewrite !rewriteReadURL_keeps by (left; exact Heq). reflexivity.
  - destruct (JS.startsWith readURL driverPrefix) eqn:Hst.
    + assert (Hne : readURLPrefix <> driverPrefix).
      { intros ->. rewrite startsWith_self in Hhd. discriminate. }
      rewrite (rewriteReadURL_strips _ _ _ Hne Hst).
      apply rewriteReadURL_keeps. right.
      destruct (JS.startsWith (readURLPrefix ++ _) driverPrefix) eqn:Hagain; [|reflexivity].
      apply startsWith_app_comparable in Hagain. destruct Hagain; congruence.
    + rewrite (rewriteReadURL_keeps _ _ readURL) by (right; exact Hst).
      apply rewriteReadURL_keeps. right. exact Hst.
Qed.

Lemma rewriteReadURL_idempotent_witness :
  rewriteReadURL "https://hub.example/" "http://localhost:4000/"
    (rewriteReadURL "https://hub.example/" "http://localhost:4000/"
                    "http://localhost:4000/P/foo")
  = rewriteReadURL "https://hub.example/" "http://localhost:4000/"
                   "http://localhost:4000/P/foo".
Proof.
  apply (rewriteReadURL_idempotent "https://hub.example/" "http://localhost:4000/"
                                   "http://localhost:4000/P/foo").
  right. split; reflexivity.
Defined.

End RewriteFacts.

(** ** Megabytes and bytes *)

Section SizeFacts.
Import Utils.
Local Open Scope Q_scope.











End SizeFacts.

(** ** The proof check *)

Section ProofCheckFacts.
Context {D : Type} (net : ProofChecker.Network).
Import ProofChecker.

(** With nothing required, or for a profile, the check returns at once:
    the world is as before. *)
Lemma checkProofs_exempt (this : t) (address filename readURL : string) (w : World D) :
  proofsRequired this = 0%Z \/ JS.endsWith filename "/profile.json" = true ->
  checkProofs net this address filename readURL w = (Ok true, w).
Proof.
  intros Hcase. unfold checkProofs. destruct Hcase as [Hzero | Hends].
  - rewrite Hzero. reflexivity.
  - rewrite Hends, orb_true_r. reflexivity.
Qed.

End ProofCheckFacts.

(** ** The keyed lock *)

Section MutexFacts.
Import AsyncMutexScope.

Lemma callbacks_clear (id : string) (run : list (nat * string)) (opened : gset string) :
  (exists owner, (owner, id) ∈ run) ->
  id ∉ foldr (fun cb opened => opened ∖ {[cb.2]}) opened run.
Proof.
  intros [owner Hin]. induction run as [|cb run IH]; simpl.
  - inversion Hin.
  - apply elem_of_cons in Hin. destruct Hin as [<- | Hin]; simpl.
    + set_solver.
    + specialize (IH Hin). set_solver.
Qed.

Lemma settle_removes (owner : nat) (id : string) (how : Settlement) (scope : t) :
  (owner, id) ∈ finalizers scope -> id ∉ _opened (settle owner how scope).
Proof.
  intros Hin. unfold settle. simpl. apply callbacks_clear.
  exists owner. apply list_elem_of_filter. split; [reflexivity|exact Hin].
Qed.

(** C6.  When [id] is held, [tryAcquire] returns [false] and the scope
    is as before, whatever [spawnOwner] is (it is not invoked).  When it
    is not held, [spawnOwner] is invoked on a scope that already holds
    [id], so that a [tryAcquire] of [id] from inside it returns [false];
    if [spawnOwner] returns a promise, [tryAcquire] returns [true] and
    [id] is removed when the promise settles, however it settles; if
    [spawnOwner] throws, [id] is removed and the error is thrown
    again. *)
Theorem tryAcquire_spec (id : string) (spawnOwner : SpawnOwner) (scope : t) :
  (id ∈ _opened scope -> tryAcquire id spawnOwner scope = (scope, Return false))
  /\ (id ∉ _opened scope ->
      let entered := {| _opened := {[id]} ∪ _opened scope;
                        finalizers := finalizers scope;
                        invoked := invoked scope ++ [id] |} in
      id ∈ _opened entered
      /\ (forall reentrant : SpawnOwner,
             tryAcquire id reentrant entered = (entered, Return false))
      /\ (forall after owner,
             spawnOwner entered = (after, Returned owner) ->
             tryAcquire id spawnOwner scope = (finally owner id after, Return true)
             /\ (owner, id) ∈ finalizers (finally owner id after)
             /\ forall later how,
                 (owner, id) ∈ finalizers later ->
                 id ∉ _opened (settle owner how later))
      /\ (forall after error,
             spawnOwner entered = (after, Threw error) ->
             tryAcquire id spawnOwner scope = (delete id after, Throw error)
             /\ id ∉ _opened (delete id after))).
Proof.
  assert (Hheld : forall f s, id ∈ _opened s -> tryAcquire id f s = (s, Return false)).
  { intros f s Hin. unfold tryAcquire, has. rewrite bool_decide_eq_true_2 by exact Hin.
    reflexivity. }
  split; [apply Hheld|].
  intros Hfree entered.
  assert (Hin : id ∈ _opened entered) by (simpl; set_solver).
  split; [exact Hin|]. split; [intros g; apply Hheld, Hin|].
  assert (Hstep : tryAcquire id spawnOwner scope
                  = match spawnOwner entered with
                    | (after, Returned owner) => (finally owner id after, Return true)
                    | (after, Threw error) => (delete id after, Throw error)
                    end).
  { unfold tryAcquire, has. rewrite bool_decide_eq_false_2 by exact Hfree. reflexivity. }
  split.
  - intros after owner Hrun. rewrite Hstep, Hrun. split; [reflexivity|].
    split; [simpl; set_solver|].
    intros later how Hlater. apply settle_removes, Hlater.
  - intros after error Hrun. rewrite Hstep, Hrun. split; [reflexivity|].
    simpl. set_solver.
Qed.

Lemma tryAcquire_spec_witness :
  let scope := {| _opened := {["a"]}; finalizers := []; invoked := [] |} in
  let inner : SpawnOwner := fun scope => (scope, Returned 8%nat) in
  tryAcquire "a" inner scope = (scope, Return false)
  /\ fst (tryAcquire "b" (Sample.reentrantOwner "b" inner) scope)
     = {| _opened := {["b"]} ∪ {["a"]}; finalizers := [(7%nat, "b")]; invoked := ["b"] |}
  /\ "b" ∉ _opened (settle 7 (Rejected "failed")
                           (fst (tryAcquire "b" (Sample.reentrantOwner "b" inner) scope))).
Proof.
  intros scope inner. split; [|split].
  - apply (tryAcquire_spec "a" inner scope). set_solver.
  - reflexivity.
  - destruct (tryAcquire_spec "b" (Sample.reentrantOwner "b" inner) scope) as [_ Hfree].
    destruct Hfree as (_ & _ & Hreturned & _); [set_solver|].
    destruct (Hreturned _ 7%nat eq_refl) as (Hstep & Hattached & Hsettle).
    rewrite Hstep. apply Hsettle. exact Hattached.
Defined.

End MutexFacts.

(** ** Scopes *)

Section ScopeFacts.
Import Authentication HubServer.

Lemma find_truthy_existsb (pred : string -> bool) (scopes : list string) :
  Forall (fun p => p <> EmptyString) scopes ->
  JS.bangbang (JS.find pred scopes) = existsb pred scopes.
Proof.
  intros Hne. induction Hne as [|p scopes Hp Hrest IH]; simpl; [reflexivity|].
  destruct (pred p); simpl.
  - apply truthy_nonempty, Hp.
  - exact IH.
Qed.

(** The match of a path against prefixes and paths, as the three scope
    blocks compute it, is the plain "some prefix or some path matches"
    as long as no scope is the empty string. *)
Lemma scope_match_nonempty (path : string) (prefixes paths : list string) :
  Forall (fun p => p <> EmptyString) prefixes ->
  Forall (fun p => p <> EmptyString) paths ->
  (let match_ := JS.bangbang (JS.find (fun p => JS.startsWith path p) prefixes) in
   if negb match_
   then JS.bangbang (JS.find (fun p => String.eqb path p) paths)
   else match_)
  = existsb (fun p => JS.startsWith path p) prefixes
    || existsb (fun p => String.eqb path p) paths.
Proof.
  intros Hprefixes Hpaths. cbv zeta.
  rewrite (find_truthy_existsb _ _ Hprefixes), (find_truthy_existsb _ _ Hpaths).
  destruct (existsb _ prefixes); reflexivity.
Qed.

Lemma existsb_eqb_In (path : string) (paths : list string) :
  existsb (fun p => String.eqb path p) paths = true <-> In path paths.
Proof.
  rewrite existsb_exists. split.
  - intros (p & Hin & Heq). apply String.eqb_eq in Heq. subst p. exact Hin.
  - intros Hin. exists path. split; [exact Hin|apply String.eqb_refl].
Qed.

Lemma no_scopes_iff (prefixes paths : list string) :
  (0 <? length prefixes)%nat || (0 <? length paths)%nat = false
  <-> prefixes = [] /\ paths = [].
Proof.
  destruct prefixes, paths; simpl; split; try discriminate; try tauto.
  all: intros [Hp Hq]; discriminate.
Qed.

Lemma checkScopes_nonempty (path : string) (prefixes paths : list string) :
  Forall (fun p => p <> EmptyString) prefixes ->
  Forall (fun p => p <> EmptyString) paths ->
  checkScopes path prefixes paths = Ok tt
  <-> (prefixes = [] /\ paths = [])
      \/ (exists p, In p prefixes /\ JS.startsWith path p = true)
      \/ In path paths.
Proof.
  intros Hprefixes Hpaths. unfold checkScopes.
  pose proof (scope_match_nonempty path prefixes paths Hprefixes Hpaths) as Hmatch.
  cbv zeta in Hmatch. rewrite Hmatch. clear Hmatch.
  rewrite <- no_scopes_iff, <- existsb_eqb_In, <- existsb_exists.
  destruct ((0 <? length prefixes)%nat || (0 <? length paths)%nat);
    destruct (existsb (fun p => JS.startsWith path p) prefixes);
    destruct (existsb (fun p => String.eqb path p) paths); simpl;
    split; intros Hyp; try reflexivity; try discriminate; try tauto.
  all: destruct Hyp as [Hyp | [Hyp | Hyp]]; discriminate.
Qed.

Lemma checkArchivalRestrictions_nonempty (address path : string)
      (scopes : AuthScopeValues) :
  Forall (fun p => p <> EmptyString) (writeArchivalPrefixes scopes) ->
  Forall (fun p => p <> EmptyString) (writeArchivalPaths scopes) ->
  checkArchivalRestrictions address path scopes
  = if isArchivalRestricted scopes
    then if existsb (fun p => JS.startsWith path p) (writeArchivalPrefixes scopes)
            || existsb (fun p => String.eqb path p) (writeArchivalPaths scopes)
         then Ok true
         else Err ValidationError
    else Ok false.
Proof.
  intros Hprefixes Hpaths. unfold checkArchivalRestrictions.
  pose proof (scope_match_nonempty path _ _ Hprefixes Hpaths) as Hmatch.
  cbv zeta in *. rewrite Hmatch.
  destruct (isArchivalRestricted scopes); [|reflexivity].
  destruct (_ || _); reflexivity.
Qed.

(** C1.  A token whose write scopes are the prefixes [""] and ["foo/"]
    is refused the write to ["foo/bar"] by the scope check, although
    both prefixes are prefixes of the path: [find] returns the first
    matching prefix, the empty string, and [!!""] is [false]. *)
Theorem handleRequest_empty_prefix_scope :
  let scopes := [ {| scope := putFilePrefix; domain := EmptyString |};
                  {| scope := putFilePrefix; domain := "foo/" |} ] in
  let values := getAuthenticationScopes (Some (Bearer (Sample.token scopes 5))) in
  writePrefixes values = [EmptyString; "foo/"]
  /\ JS.startsWith "foo/bar" EmptyString = true
  /\ JS.startsWith "foo/bar" "foo/" = true
  /\ checkArchivalRestrictions Sample.principal "foo/bar" values = Ok false
  /\ checkScopes "foo/bar" (writePrefixes values) (writePaths values) = Err ValidationError
  /\ handleRequest Sample.network Sample.hub 1000 Sample.rnd Sample.principal "foo/bar"
                   (Sample.headers scopes 5 None) (Sample.stream ["hello"]) Sample.world
     = (Err ValidationError,
        {| driver := Sample.emptyStore;
           cache := [(Sample.principal, 0%Z)];
           cacheSize := 2;
           trace := [CallPerformRead Sample.principal ".authTimestamp"] |}).
Proof. repeat split; vm_compute; reflexivity. Qed.

(** The same write under the prefix ["foo/"] alone is admitted. *)
Example handleRequest_prefix_scope :
  fst (handleRequest Sample.network Sample.hub 1000 Sample.rnd Sample.principal "foo/bar"
                     (Sample.headers [ {| scope := putFilePrefix; domain := "foo/" |} ] 5 None)
                     (Sample.stream ["hello"]) Sample.world)
  = Ok "http://driver.example/1Lbcfr7sAHTD9CgdQo3HTMTkV8LK4ZnX71/foo/bar".
Proof. vm_compute. reflexivity. Qed.

End ScopeFacts.

(** ** The revocation clock *)

Section RevocationFacts.
Context {D : Type} `{DriverModel D} (net : ProofChecker.Network).
Import Authentication HubServer.

Lemma validateAuthorizationHeader_revoked
      (token : Token) (serverName address : string) (requireCorrectHubUrl : bool)
      (validHubUrls : option (list string)) (oldest : Z) :
  (iat token < oldest)%Z ->
  validateAuthorizationHeader (Some (Bearer token)) serverName address
                              requireCorrectHubUrl validHubUrls (Some oldest)
  = Err ValidationError.
Proof.
  intros Hiat. unfold validateAuthorizationHeader.
  apply Z.ltb_lt in Hiat. rewrite Hiat.
  repeat match goal with
         | |- (if ?b then _ else _) = _ => destruct b; [reflexivity|]
         end.
  reflexivity.
Qed.

Lemma validate_revoked (this : HubServer.t) (address : string)
      (requestHeaders : RequestHeaders) (token : Token) (oldest : Z) (w : World D) :
  authorization requestHeaders = Some (Bearer token) ->
  (iat token < oldest)%Z ->
  validate this address requestHeaders (Some oldest) w = (Err ValidationError, w).
Proof.
  intros Hauth Hiat. unfold validate, bind, lift. rewrite Hauth.
  rewrite (validateAuthorizationHeader_revoked _ _ _ _ _ _ Hiat). reflexivity.
Qed.

(** The three handlers that hand the clock to [validate] refuse a token
    issued before it. *)
Lemma handlers_refuse_revoked (this : HubServer.t) (now : N) (rnd : nat -> nat)
      (address path : string) (page : option string) (stat : bool)
      (requestHeaders : RequestHeaders) (stream : Utils.Readable)
      (token : Token) (oldest : Z) (w w1 : World D) :
  AuthTimestampCache.getAuthTimestamp address w = (Ok oldest, w1) ->
  authorization requestHeaders = Some (Bearer token) ->
  (iat token < oldest)%Z ->
  handleRequest net this now rnd address path requestHeaders stream w
  = (Err ValidationError, w1)
  /\ handleDelete net this now rnd address path requestHeaders w
     = (Err ValidationError, w1)
  /\ handleListFiles this address page stat requestHeaders w
     = (Err ValidationError, w1).
Proof.
  intros Hclock Hauth Hiat.
  pose proof (validate_revoked this address requestHeaders token oldest w1 Hauth Hiat)
    as Hval.
  repeat split.
  - unfold handleRequest. rewrite (bind_ok _ _ _ _ _ Hclock).
    apply bind_err, Hval.
  - unfold handleDelete. rewrite (bind_ok _ _ _ _ _ Hclock).
    apply bind_err, Hval.
  - unfold handleListFiles. rewrite (bind_ok _ _ _ _ _ Hclock).
    apply bind_err, Hval.
Qed.

(** [handleAuthBump] calls [validate] without the clock: what it does
    with a token does not depend on when the token was issued. *)
Lemma handleAuthBump_ignores_iat (this : HubServer.t) (address : string)
      (oldestValidTimestamp : Z) (requestHeaders : RequestHeaders) (token : Token)
      (issued : Z) (w : World D) :
  authorization requestHeaders = Some (Bearer token) ->
  handleAuthBump this address oldestValidTimestamp requestHeaders w
  = handleAuthBump this address oldestValidTimestamp
                   {| content_type := content_type requestHeaders;
                      content_length := content_length requestHeaders;
                      authorization :=
                        Some (Bearer {| signatureValid := signatureValid token;
                                        associationValid := associationValid token;
                                        unexpired := unexpired token;
                                        signingPrincipal := signingPrincipal token;
                                        hubUrl := hubUrl token;
                                        iat := issued;
                                        scopes := scopes token |}) |} w.
Proof.
  intros Hauth. unfold handleAuthBump, validate, bind, lift. rewrite Hauth. reflexivity.
Qed.

End RevocationFacts.

(** C2.  After the principal bumped its clock to 1000, a token issued at
    999 is refused by [handleListFiles], [handleDelete] and
    [handleRequest], but [handleAuthBump] accepts it and moves the clock
    to 2000: it validates the token without the clock. *)
Theorem handleAuthBump_accepts_revoked_token :
  let revoked := Sample.headers [] 999 None in
  cache Sample.worldBumped = [(Sample.principal, 1000%Z)]
  /\ fst (HubServer.handleListFiles Sample.hub Sample.principal None false revoked
                                    Sample.worldBumped)
     = Err ValidationError
  /\ fst (HubServer.handleDelete Sample.network Sample.hub 1000 Sample.rnd
                                 Sample.principal "foo/bar" revoked Sample.worldBumped)
     = Err ValidationError
  /\ fst (HubServer.handleRequest Sample.network Sample.hub 1000 Sample.rnd
                                  Sample.principal "foo/bar" revoked
                                  (Sample.stream ["hello"]) Sample.worldBumped)
     = Err ValidationError
  /\ fst (HubServer.handleAuthBump Sample.hub Sample.principal 2000 revoked
                                   Sample.worldBumped)
     = Ok tt
  /\ cache (snd (HubServer.handleAuthBump Sample.hub Sample.principal 2000 revoked
                                          Sample.worldBumped))
     = [(Sample.principal, 2000%Z)].
Proof. repeat split; vm_compute; reflexivity. Qed.

(** ** Listing *)

Section ListFacts.
Context {D : Type} `{DriverModel D}.
Import Authentication HubServer.

Lemma filter_map_name {A} (f : A -> string) (keep : string -> bool) (l : list A) :
  map f (List.filter (fun entry => keep (f entry)) l) = List.filter keep (map f l).
Proof.
  induction l as [|a l IH]; simpl; [reflexivity|].
  destruct (keep (f a)); simpl; rewrite IH; reflexivity.
Qed.

Lemma map_option_name (l : list ListFileStatEntry) :
  map (option_map name) (map Some l) = map Some (map name l).
Proof. induction l as [|a l IH]; simpl; [reflexivity|]. rewrite IH. reflexivity. Qed.

(** What [handleListFiles] returns once the token validates and the
    driver has answered, in closed form. *)
Lemma handleListFiles_closed_form (this : HubServer.t) (address : string)
      (page : option string) (stat : bool) (requestHeaders : RequestHeaders)
      (w w1 w2 : World D) (oldest : Z) (names : list string) (cursor : option string)
      (d' : D) :
  AuthTimestampCache.getAuthTimestamp address w = (Ok oldest, w1) ->
  validate this address requestHeaders (Some oldest) w1 = (Ok tt, w2) ->
  driverListing stat {| list_pathPrefix := address; list_page := page |} (driver w2)
  = (Ok (names, cursor), d') ->
  exists result,
    handleListFiles this address page stat requestHeaders w
    = (Ok result,
       {| driver := d'; cache := cache w2; cacheSize := cacheSize w2;
          trace := trace w2 ++ [if stat then CallListFilesStat address page
                                else CallListFiles address page] |})
    /\ pageOf result = cursor
    /\ namesOf result
       = let kept := List.filter (fun n => negb (isHistoricalFile n)) names in
         if isArchivalRestricted (getAuthenticationScopes (authorization requestHeaders))
            && (0 <? length names)%nat
         then if (length kept =? 0)%nat && JS.bangbang cursor
              then (map Some kept ++ [None])%list
              else map Some kept
         else map Some names.
Proof.
  intros Hclock Hval Hlist. unfold handleListFiles.
  rewrite (bind_ok _ _ _ _ _ Hclock). cbv zeta.
  rewrite (bind_ok _ _ _ _ _ Hval).
  unfold driverListing in Hlist.
  set (archival := isArchivalRestricted _).
  destruct stat.
  - destruct (listFilesStat _ (driver w2)) as [[listed|e] d1] eqn:Hdrv; [|discriminate].
    injection Hlist as Hnames Hcursor Hd. subst names cursor d1.
    unfold bind at 1, call at 1. rewrite Hdrv.
    rewrite <- filter_map_name, !length_map.
    destruct (archival && (0 <? length (ListPage.entries listed))%nat).
    + destruct ((length (List.filter _ (ListPage.entries listed)) =? 0)%nat
                && JS.bangbang (ListPage.page listed));
        (eexists; split; [reflexivity|]; split; [reflexivity|]); simpl.
      * rewrite map_app, map_option_name. reflexivity.
      * apply map_option_name.
    + eexists; split; [reflexivity|]; split; [reflexivity|]. simpl.
      apply map_option_name.
  - destruct (listFiles _ (driver w2)) as [[listed|e] d1] eqn:Hdrv; [|discriminate].
    injection Hlist as Hnames Hcursor Hd. subst names cursor d1.
    unfold bind at 1, call at 1. rewrite Hdrv.
    destruct (archival && (0 <? length (ListPage.entries listed))%nat).
    + destruct ((length (List.filter _ (ListPage.entries listed)) =? 0)%nat
                && JS.bangbang (ListPage.page listed));
        (eexists; split; [reflexivity|]; split; reflexivity).
    + eexists; split; [reflexivity|]; split; reflexivity.
Qed.

(** C8, amended.  [handleListFiles] checks no scope against a path: once
    the token validates and the driver has answered, it returns a page
    with the driver's cursor.  Without archival scopes the page holds
    the driver's entries.  With archival scopes the entries whose file
    name begins with [.history.] are left out; and when that empties a
    page that had entries and whose cursor is neither [null] nor the
    empty string, the page holds exactly one [null]. *)
Theorem handleListFiles_filters_history (this : HubServer.t) (address : string)
      (page : option string) (stat : bool) (requestHeaders : RequestHeaders)
      (w w1 w2 : World D) (oldest : Z) (names : list string) (cursor : option string)
      (d' : D) :
  AuthTimestampCache.getAuthTimestamp address w = (Ok oldest, w1) ->
  validate this address requestHeaders (Some oldest) w1 = (Ok tt, w2) ->
  driverListing stat {| list_pathPrefix := address; list_page := page |} (driver w2)
  = (Ok (names, cursor), d') ->
  let archival :=
    isArchivalRestricted (getAuthenticationScopes (authorization requestHeaders)) in
  let kept := List.filter (fun n => negb (isHistoricalFile n)) names in
  exists result,
    fst (handleListFiles this address page stat requestHeaders w) = Ok result
    /\ pageOf result = cursor
    /\ (archival = false -> namesOf result = map Some names)
    /\ (archival = true ->
        (forall n, In (Some n) (namesOf result) ->
                   In n names /\ isHistoricalFile n = false)
        /\ (names <> [] -> kept = [] ->
            (exists c, cursor = Some c /\ c <> EmptyString) ->
            namesOf result = [None])
        /\ (names = [] \/ kept <> [] \/ cursor = None \/ cursor = Some EmptyString ->
            namesOf result = map Some kept)).
Proof.
  intros Hclock Hval Hlist archival kept.
  destruct (handleListFiles_closed_form this address page stat requestHeaders
              w w1 w2 oldest names cursor d' Hclock Hval Hlist)
    as (result & Hrun & Hpage & Hnames).
  fold archival in Hnames. cbv zeta in Hnames. fold kept in Hnames.
  exists result. split; [rewrite Hrun; reflexivity|]. split; [exact Hpage|].
  split.
  - intros Harch. rewrite Hnames, Harch. reflexivity.
  - intros Harch. rewrite Harch in Hnames. simpl in Hnames.
    assert (Hkept : forall n, In n kept -> In n names /\ isHistoricalFile n = false).
    { intros n Hin. apply filter_In in Hin. destruct Hin as [Hin Hneg].
      split; [exact Hin|]. apply negb_true_iff, Hneg. }
    assert (Hempty : names = [] -> kept = []) by (intros ->; reflexivity).
    split; [|split].
    + intros n Hin. rewrite Hnames in Hin. apply Hkept.
      destruct (0 <? length names)%nat eqn:Hlen.
      * destruct ((length kept =? 0)%nat && JS.bangbang cursor).
        -- apply in_app_or in Hin. destruct Hin as [Hin | [Hin | []]]; [|discriminate].
           apply in_map_iff in Hin. destruct Hin as (m & [= ->] & Hin). exact Hin.
        -- apply in_map_iff in Hin. destruct Hin as (m & [= ->] & Hin). exact Hin.
      * destruct names; [|discriminate]. destruct Hin.
    + intros Hsome Hnone (c & -> & Hc). rewrite Hnames, Hnone.
      destruct names; [congruence|]. simpl.
      apply truthy_nonempty in Hc. rewrite Hc. reflexivity.
    + intros Hcase. rewrite Hnames.
      destruct (0 <? length names)%nat eqn:Hlen.
      * destruct kept as [|k kept'] eqn:Ekept; simpl.
        -- destruct Hcase as [-> | [Hk | [-> | ->]]];
             [discriminate|congruence|reflexivity|reflexivity].
        -- reflexivity.
      * destruct names; [|discriminate]. reflexivity.
Qed.

End ListFacts.

(** A page of historical entries only, with a cursor that is the empty
    string: the returned page is empty and holds no [null]. *)
Lemma handleListFiles_empty_cursor :
  let listing := {| ListPage.entries := [".history.1700000000000.0123456789.photo"];
                    ListPage.page := Some EmptyString |} in
  let archival := [ {| Authentication.scope := Authentication.putFileArchivalPrefix;
                       Authentication.domain := "photos/" |} ] in
  fst (HubServer.handleListFiles
         Sample.hub Sample.principal None false (Sample.headers archival 5 None)
         {| driver := listing; cache := []; cacheSize := 2; trace := [] |})
  = Ok (HubServer.PlainResult
          {| ListPage.entries := []; ListPage.page := Some EmptyString |}).
Proof. vm_compute. reflexivity. Qed.

Lemma handleListFiles_filters_history_witness :
  let listing := {| ListPage.entries := [".history.1700000000000.0123456789.photo"];
                    ListPage.page := Some "20" |} in
  let archival := [ {| Authentication.scope := Authentication.putFileArchivalPrefix;
                       Authentication.domain := "photos/" |} ] in
  exists result,
    fst (HubServer.handleListFiles
           Sample.hub Sample.principal None false (Sample.headers archival 5 None)
           {| driver := listing; cache := []; cacheSize := 2; trace := [] |})
    = Ok result
    /\ namesOf result = [None].
Proof.
  intros listing archival.
  pose (w1 := {| driver := listing;
                 cache := [(Sample.principal, 0%Z)];
                 cacheSize := 2;
                 trace := [CallPerformRead Sample.principal ".authTimestamp"] |}).
  destruct (@handleListFiles_filters_history
              CannedListing.t CannedListing.driverModel
              Sample.hub Sample.principal None false (Sample.headers archival 5 None)
              {| driver := listing; cache := []; cacheSize := 2; trace := [] |}
              w1 w1 0%Z [".history.1700000000000.0123456789.photo"] (Some "20") listing
              ltac:(vm_compute; reflexivity) ltac:(vm_compute; reflexivity)
              ltac:(vm_compute; reflexivity))
    as (result & Hrun & _ & _ & Harchival).
  exists result. split; [exact Hrun|].
  apply Harchival; [reflexivity|discriminate|reflexivity|].
  exists "20". split; [reflexivity|discriminate].
Defined.

(** ** File names *)

Section NameFacts.
Import HubServer.

Lemma length_append (a b : string) :
  String.length (a ++ b) = (String.length a + String.length b)%nat.
Proof.
  induction a as [|c a IH]; [reflexivity|].
  rewrite append_cons. simpl. rewrite IH. reflexivity.
Qed.

Lemma slice_to_app (a b : string) : JS.slice_to (String.length a) (a ++ b) = a.
Proof.
  induction a as [|c a IH]; [reflexivity|].
  rewrite append_cons. simpl. rewrite IH. reflexivity.
Qed.

Lemma append_inj_l (a b c : string) : a ++ b = a ++ c -> b = c.
Proof.
  induction a as [|x a IH]; [intros Heq; exact Heq|].
  rewrite !append_cons. intros [= Heq]. apply IH, Heq.
Qed.

Lemma append_assoc (a b c : string) : (a ++ b) ++ c = a ++ (b ++ c).
Proof.
  induction a as [|x a IH]; [reflexivity|].
  rewrite !append_cons, IH. reflexivity.
Qed.

Lemma split_nonempty (sep : ascii) (s : string) : JS.split sep s <> [].
Proof.
  destruct s as [|c s]; simpl; [discriminate|].
  destruct (Ascii.eqb c sep); [discriminate|].
  destruct (JS.split sep s); discriminate.
Qed.

Lemma split_single (sep : ascii) (s seg : string) :
  JS.split sep s = [seg] -> seg = s /\ hasChar sep s = false.
Proof.
  revert seg. induction s as [|c s IH]; intros seg Hs; simpl in *.
  - injection Hs as <-. split; reflexivity.
  - destruct (Ascii.eqb c sep) eqn:E.
    + injection Hs as _ Hrest. exfalso. exact (split_nonempty sep s Hrest).
    + destruct (JS.split sep s) as [|seg' rest] eqn:Hsplit.
      * exfalso. exact (split_nonempty sep s Hsplit).
      * injection Hs as <- ->. destruct (IH seg' eq_refl) as [-> Hno].
        rewrite Ascii.eqb_sym, E. split; [reflexivity|exact Hno].
Qed.

(** A path is its directory prefix, empty or ending with the separator,
    followed by its last component, which holds no separator. *)
Lemma split_last_decompose (sep : ascii) (s : string) :
  exists dir,
    s = dir ++ List.last (JS.split sep s) EmptyString
    /\ (dir = EmptyString \/ exists d, dir = d ++ String sep EmptyString)
    /\ hasChar sep (List.last (JS.split sep s) EmptyString) = false.
Proof.
  induction s as [|c s IH].
  - exists EmptyString. repeat split. left. reflexivity.
  - destruct IH as (dir & Hs & Hdir & Hno). simpl.
    destruct (Ascii.eqb c sep) eqn:E.
    + apply Ascii.eqb_eq in E. subst c.
      destruct (JS.split sep s) as [|seg rest] eqn:Hsplit;
        [exfalso; exact (split_nonempty sep s Hsplit)|].
      change (List.last (EmptyString :: seg :: rest) EmptyString)
        with (List.last (seg :: rest) EmptyString).
      exists (String sep dir). rewrite append_cons, <- Hs.
      split; [reflexivity|]. split; [|exact Hno].
      right. destruct Hdir as [-> | (d & ->)].
      * exists EmptyString. reflexivity.
      * exists (String sep d). reflexivity.
    + destruct (JS.split sep s) as [|seg rest] eqn:Hsplit;
        [exfalso; exact (split_nonempty sep s Hsplit)|].
      destruct rest as [|seg2 rest].
      * destruct (split_single sep s seg Hsplit) as [-> Hnone].
        exists EmptyString. simpl. rewrite Ascii.eqb_sym, E.
        split; [reflexivity|]. split; [left; reflexivity|exact Hnone].
      * change (List.last (String c seg :: seg2 :: rest) EmptyString)
          with (List.last (seg :: seg2 :: rest) EmptyString).
        exists (String c dir). rewrite append_cons, <- Hs.
        split; [reflexivity|]. split; [|exact Hno].
        right. destruct Hdir as [-> | (d & ->)].
        -- simpl in Hs. exfalso.
           assert (Hsep : hasChar sep s = false) by (rewrite Hs; exact Hno).
           clear - Hsplit Hsep.
           revert seg seg2 rest Hsplit. induction s as [|x s IHs]; intros; simpl in *.
           ++ discriminate.
           ++ apply orb_false_iff in Hsep. destruct Hsep as [Hx Hsep].
              rewrite Ascii.eqb_sym, Hx in Hsplit.
              destruct (JS.split sep s) as [|a [|b l]] eqn:Es; try discriminate.
              exact (IHs Hsep a b l eq_refl).
        -- exists (String c d). reflexivity.
Qed.

Lemma get_hasChar (i : nat) (s : string) (c : ascii) :
  String.get i s = Some c -> hasChar c s = true.
Proof.
  revert i. induction s as [|d s IH]; intros i Hget; simpl in *; [discriminate|].
  destruct i as [|i].
  - injection Hget as ->. rewrite Ascii.eqb_refl. reflexivity.
  - rewrite (IH i Hget). apply orb_true_r.
Qed.

Lemma length_string_of_list_ascii (l : list ascii) :
  String.length (string_of_list_ascii l) = length l.
Proof. induction l as [|c l IH]; simpl; [reflexivity|]. rewrite IH. reflexivity. Qed.

(** The unique ID is 10 characters of [0-9A-Za-z]. *)
Lemma generateUniqueID_form (rnd : nat -> nat) :
  String.length (Utils.generateUniqueID rnd) = 10%nat
  /\ alphanumeric (Utils.generateUniqueID rnd).
Proof.
  unfold Utils.generateUniqueID, Utils.nanoid, alphanumeric. split.
  - rewrite length_string_of_list_ascii, length_map, length_seq. reflexivity.
  - rewrite list_ascii_of_string_of_list_ascii.
    apply List.Forall_forall. intros c Hin. apply in_map_iff in Hin.
    destruct Hin as (i & <- & _).
    destruct (String.get _ Utils.alphabet) as [c|] eqn:Hget.
    + exact (get_hasChar _ _ _ Hget).
    + reflexivity.
Qed.

(** The historical name of a path: the directory prefix of the path,
    then [.history.<now>.<id>.<filename>]. *)
Lemma getHistoricalFileName_form (now : N) (rnd : nat -> nat) (path : string) :
  exists dir uid,
    path = dir ++ getFileName path
    /\ (dir = EmptyString \/ exists d, dir = d ++ "/")
    /\ hasChar "/" (getFileName path) = false
    /\ String.length uid = 10%nat
    /\ alphanumeric uid
    /\ getHistoricalFileName now rnd path
       = dir ++ ".history." ++ JS.template_of_N now ++ "." ++ uid ++ "."
             ++ getFileName path.
Proof.
  destruct (split_last_decompose "/" path) as (dir & Hpath & Hdir & Hno).
  fold (getFileName path) in Hpath, Hno.
  exists dir, (Utils.generateUniqueID rnd).
  destruct (generateUniqueID_form rnd) as [Hlen Halpha].
  repeat split; try assumption.
  unfold getHistoricalFileName. cbv zeta. f_equal.
  pose proof (f_equal String.length Hpath) as Hlength.
  rewrite length_append in Hlength.
  replace (String.length path - String.length (getFileName path))%nat
    with (String.length dir) by lia.
  transitivity (JS.slice_to (String.length dir) (dir ++ getFileName path)).
  - f_equal. exact Hpath.
  - apply slice_to_app.
Qed.


End NameFacts.

(** ** The steps before the action, and delete *)

Section AdmissionFacts.
Context {D : Type} `{DriverModel D} (net : ProofChecker.Network).
Import Authentication HubServer.

Section Respects.
Variable R : World D -> World D -> Prop.
Hypothesis R_refl : forall w, R w w.
Hypothesis R_trans : forall w1 w2 w3, R w1 w2 -> R w2 w3 -> R w1 w3.

Lemma respects_ret {A} (a : A) : respects R (ret a : Hub D A).
Proof. intros w r w' [= <- <-]. apply R_refl. Qed.

Lemma respects_throw {A} (e : HubError) : respects R (throw e : Hub D A).
Proof. intros w r w' [= <- <-]. apply R_refl. Qed.

Lemma respects_lift {A} (x : Result A) : respects R (lift x : Hub D A).
Proof. intros w r w' [= <- <-]. apply R_refl. Qed.

Lemma respects_bind {A B} (m : Hub D A) (k : A -> Hub D B) :
  respects R m -> (forall a, respects R (k a)) -> respects R (bind m k).
Proof.
  intros Hm Hk w r w'. unfold bind.
  destruct (m w) as [[a|e] w1] eqn:Hrun; intros Hres.
  - eapply R_trans; [exact (Hm _ _ _ Hrun)|exact (Hk a _ _ _ Hres)].
  - injection Hres as <- <-. exact (Hm _ _ _ Hrun).
Qed.

Lemma respects_try_catch {A} (m : Hub D A) (handler : HubError -> Hub D A) :
  respects R m -> (forall e, respects R (handler e)) -> respects R (try_catch m handler).
Proof.
  intros Hm Hh w r w'. unfold try_catch.
  destruct (m w) as [[a|e] w1] eqn:Hrun; intros Hres.
  - injection Hres as <- <-. exact (Hm _ _ _ Hrun).
  - eapply R_trans; [exact (Hm _ _ _ Hrun)|exact (Hh e _ _ _ Hres)].
Qed.

(** What the steps before the action are made of. *)
Hypothesis R_remember :
  forall principal timestamp,
    respects R (AuthTimestampCache.remember principal timestamp : Hub D unit).
Hypothesis R_read :
  forall principal,
    respects R (call (CallPerformRead principal AuthTimestampCache.AUTH_TIMESTAMP_FILE_NAME)
                     (performRead
                        {| read_storageTopLevel := principal;
                           read_path := AuthTimestampCache.AUTH_TIMESTAMP_FILE_NAME |})).
Hypothesis R_prefix : respects R (driverReadURLPrefix : Hub D string).
Hypothesis R_fetch : forall url, respects R (emit (FetchProfile url) : Hub D unit).
Hypothesis R_validate : forall address, respects R (emit (ValidateProofs address) : Hub D unit).

Lemma getAuthTimestamp_respects (address : string) :
  respects R (AuthTimestampCache.getAuthTimestamp address : Hub D Z).
Proof.
  unfold AuthTimestampCache.getAuthTimestamp. apply respects_bind.
  - intros w r w' [= <- <-]. apply R_refl.
  - intros [ts|].
    + apply respects_bind; [apply R_remember|intros; apply respects_ret].
    + apply respects_bind.
      * unfold AuthTimestampCache.readAuthTimestamp. apply respects_try_catch.
        -- apply respects_bind; [apply R_read|].
           intros info. destruct (info_exists info); [|apply respects_ret].
           destruct (AuthTimestampCache.decode _);
             [apply respects_ret|apply respects_throw].
        -- intros []; first [apply respects_ret | apply respects_throw].
      * intros ts. apply respects_bind; [apply R_remember|intros; apply respects_ret].
Qed.

Lemma validate_respects (this : HubServer.t) (address : string)
      (requestHeaders : RequestHeaders) (oldest : option Z) :
  respects R (validate this address requestHeaders oldest : Hub D unit).
Proof.
  unfold validate. apply respects_bind; [apply respects_lift|].
  intros signer. destruct (whitelist this); [|apply respects_ret].
  destruct (negb _); [apply respects_throw|apply respects_ret].
Qed.

Lemma getReadURLPrefix_respects (this : HubServer.t) :
  respects R (HubServer.getReadURLPrefix this : Hub D string).
Proof.
  unfold HubServer.getReadURLPrefix.
  destruct (readURL this) as [url|]; [destruct (JS.truthy url)|];
    first [apply respects_ret | apply R_prefix].
Qed.

Lemma checkProofs_respects (this : ProofChecker.t) (address filename readURL : string) :
  respects R (ProofChecker.checkProofs net this address filename readURL : Hub D bool).
Proof.
  unfold ProofChecker.checkProofs.
  destruct (_ || _); [apply respects_ret|].
  apply respects_bind.
  - apply respects_try_catch; [|intros; apply respects_throw].
    apply respects_bind.
    + unfold ProofChecker.fetchProfile. apply respects_bind; [apply R_fetch|].
      intros _. destruct (ProofChecker.fetchVerified _ _ _);
        [apply respects_ret|apply respects_throw].
    + intros profile. apply respects_bind; [apply R_validate|].
      intros _. destruct (ProofChecker.validateProofs _ _ _);
        [apply respects_ret|apply respects_throw].
  - intros validProofs. destruct (ProofChecker.validEnough _ _);
      [apply respects_ret|apply respects_throw].
Qed.

Lemma admitted_respects (this : HubServer.t) (address path : string)
      (requestHeaders : RequestHeaders) (prefixes paths : AuthScopeValues -> list string)
      (w : World D) (archival : bool) (w' : World D) :
  admitted net this address path requestHeaders prefixes paths w archival w' ->
  R w w'.
Proof.
  intros (oldest & w1 & w2 & url & w3 & enough & Hclock & Hval & _ & _ & Hurl & Hproof).
  eapply R_trans; [exact (getAuthTimestamp_respects _ _ _ _ Hclock)|].
  eapply R_trans; [exact (validate_respects _ _ _ _ _ _ _ Hval)|].
  eapply R_trans; [exact (getReadURLPrefix_respects _ _ _ _ Hurl)|].
  exact (checkProofs_respects _ _ _ _ _ _ _ Hproof).
Qed.

End Respects.

Lemma readsFrom_refl (w : World D) : readsFrom w w.
Proof. exists []. rewrite app_nil_r. split; reflexivity. Qed.

Lemma readsFrom_trans (w1 w2 w3 : World D) :
  readsFrom w1 w2 -> readsFrom w2 w3 -> readsFrom w1 w3.
Proof.
  intros (e1 & H1 & F1) (e2 & H2 & F2). exists (e1 ++ e2)%list.
  rewrite H2, H1, <- app_assoc, forallb_app, F1, F2. split; reflexivity.
Qed.

Lemma call_reads {A} (ev : Event) (op : D -> Result A * D) :
  readOnly ev = true -> respects readsFrom (call ev op).
Proof.
  intros Hev w r w'. unfold call. destruct (op (driver w)) as [x d].
  intros [= <- <-]. exists [ev]. simpl. rewrite Hev. split; reflexivity.
Qed.

Lemma emit_reads (ev : Event) :
  readOnly ev = true -> respects readsFrom (emit ev : Hub D unit).
Proof.
  intros Hev w r w' [= <- <-]. exists [ev]. simpl. rewrite Hev. split; reflexivity.
Qed.

(** The steps before the action only read. *)
Lemma admitted_reads (this : HubServer.t) (address path : string)
      (requestHeaders : RequestHeaders) (prefixes paths : AuthScopeValues -> list string)
      (w : World D) (archival : bool) (w' : World D) :
  admitted net this address path requestHeaders prefixes paths w archival w' ->
  readsFrom w w'.
Proof.
  apply (admitted_respects readsFrom readsFrom_refl readsFrom_trans).
  - intros principal timestamp w0 r w0' [= <- <-]. exists []. simpl.
    rewrite app_nil_r. split; reflexivity.
  - intros principal. apply call_reads. reflexivity.
  - apply call_reads. reflexivity.
  - intros url. apply emit_reads. reflexivity.
  - intros address'. apply emit_reads. reflexivity.
Qed.

(** Past the steps before the action, [handleDelete] is the one call on
    the driver. *)
Lemma handleDelete_admitted (this : HubServer.t) (now : N) (rnd : nat -> nat)
      (address path : string) (requestHeaders : RequestHeaders)
      (w : World D) (archival : bool) (w1 : World D) :
  admitted net this address path requestHeaders deletePrefixes deletePaths w archival w1 ->
  handleDelete net this now rnd address path requestHeaders w
  = if archival
    then call (CallPerformRename address path (getHistoricalFileName now rnd path))
              (performRename {| rename_path := path;
                                rename_storageTopLevel := address;
                                rename_newPath := getHistoricalFileName now rnd path |}) w1
    else call (CallPerformDelete address path)
              (performDelete {| delete_storageTopLevel := address;
                                delete_path := path |}) w1.
Proof.
  intros (oldest & w1' & w2 & url & w3 & enough
          & Hclock & Hval & Harch & Hscope & Hurl & Hproof).
  unfold handleDelete.
  rewrite (bind_ok _ _ _ _ _ Hclock), (bind_ok _ _ _ _ _ Hval). cbv zeta.
  rewrite (bind_ok _ _ _ _ _ (lift_ok _ _ w2 Harch)).
  rewrite (bind_ok _ _ _ _ _ (lift_ok _ _ w2 Hscope)).
  rewrite (bind_ok _ _ _ _ _ Hurl), (bind_ok _ _ _ _ _ Hproof).
  destruct archival; reflexivity.
Qed.

(** C7.  For a delete request that passes the steps before the action
    (revocation clock, token, archival and delete scopes, proof check;
    these only read): when archival scopes apply, [handleDelete] makes
    one call on the driver, [performRename] of the path to its
    historical name, which is the directory prefix of the path followed
    by [.history.<now>.<id>.<filename>] with an id of 10 characters of
    [0-9A-Za-z], and no [performDelete]; when no archival scope applies
    it makes one call, [performDelete]; either way the outcome of that
    call, an error such as [DoesNotExist] included, is the outcome of
    [handleDelete]. *)
Theorem handleDelete_archives_or_deletes (this : HubServer.t) (now : N) (rnd : nat -> nat)
      (address path : string) (requestHeaders : RequestHeaders)
      (w : World D) (archival : bool) (w1 : World D) :
  admitted net this address path requestHeaders deletePrefixes deletePaths w archival w1 ->
  archival = isArchivalRestricted (getAuthenticationScopes (authorization requestHeaders))
  /\ (exists evs, trace w1 = (trace w ++ evs)%list /\ forallb readOnly evs = true)
  /\ (archival = true ->
      let historicalPath := getHistoricalFileName now rnd path in
      let renamed := performRename {| rename_path := path;
                                      rename_storageTopLevel := address;
                                      rename_newPath := historicalPath |} (driver w1) in
      handleDelete net this now rnd address path requestHeaders w
      = (fst renamed,
         {| driver := snd renamed; cache := cache w1; cacheSize := cacheSize w1;
            trace := trace w1 ++ [CallPerformRename address path historicalPath] |})
      /\ exists dir uid,
          path = dir ++ getFileName path
          /\ (dir = EmptyString \/ exists d, dir = d ++ "/")
          /\ hasChar "/" (getFileName path) = false
          /\ String.length uid = 10%nat
          /\ alphanumeric uid
          /\ historicalPath
             = dir ++ ".history." ++ JS.template_of_N now ++ "." ++ uid ++ "."
                   ++ getFileName path)
  /\ (archival = false ->
      let deleted := performDelete {| delete_storageTopLevel := address;
                                      delete_path := path |} (driver w1) in
      handleDelete net this now rnd address path requestHeaders w
      = (fst deleted,
         {| driver := snd deleted; cache := cache w1; cacheSize := cacheSize w1;
            trace := trace w1 ++ [CallPerformDelete address path] |})).
Proof.
  intros Hadm. split; [|split; [exact (admitted_reads _ _ _ _ _ _ _ _ _ Hadm)|]].
  - destruct Hadm as (_ & _ & _ & _ & _ & _ & _ & _ & Harch & _).
    unfold checkArchivalRestrictions in Harch. cbv zeta in Harch.
    destruct (isArchivalRestricted _); [|congruence].
    destruct (negb _); congruence.
  - rewrite (handleDelete_admitted _ _ _ _ _ _ _ _ _ Hadm). split.
    + intros ->. cbv zeta. split.
      * unfold call. destruct (performRename _ (driver w1)); reflexivity.
      * apply getHistoricalFileName_form.
    + intros ->. cbv zeta. unfold call.
      destruct (performDelete _ (driver w1)); reflexivity.
Qed.

End AdmissionFacts.

Lemma handleDelete_archives_or_deletes_witness :
  let archival := [ {| Authentication.scope := Authentication.putFileArchivalPrefix;
                       Authentication.domain := "foo/" |} ] in
  fst (HubServer.handleDelete Sample.network Sample.hub 1700000000000 Sample.rnd
                              Sample.principal "foo/bar"
                              (Sample.headers archival 5 None) Sample.worldWithFooBar)
  = Ok tt
  /\ last (trace (snd (HubServer.handleDelete
                         Sample.network Sample.hub 1700000000000 Sample.rnd
                         Sample.principal "foo/bar"
                         (Sample.headers archival 5 None) Sample.worldWithFooBar)))
     = Some (CallPerformRename Sample.principal "foo/bar"
                               "foo/.history.1700000000000.07ELSZgnu1.bar").
Proof.
  intros archival.
  pose (w1 := snd (AuthTimestampCache.getAuthTimestamp
                     Sample.principal Sample.worldWithFooBar)).
  pose (w3 := snd (HubServer.getReadURLPrefix Sample.hub w1)).
  assert (Hadm : admitted Sample.network Sample.hub Sample.principal "foo/bar"
                          (Sample.headers archival 5 None)
                          Authentication.deletePrefixes Authentication.deletePaths
                          Sample.worldWithFooBar true w3).
  { exists 0%Z, w1, w1, "http://driver.example/", w3, true.
    repeat split; vm_compute; reflexivity. }
  destruct (handleDelete_archives_or_deletes
              Sample.network Sample.hub 1700000000000 Sample.rnd Sample.principal
              "foo/bar" (Sample.headers archival 5 None) Sample.worldWithFooBar true _ Hadm)
    as (_ & _ & Harchival & _).
  destruct (Harchival eq_refl) as [Hrun _]. rewrite Hrun.
  split; vm_compute; reflexivity.
Defined.

(** A delete of an object that is not there: the driver's
    [DoesNotExist] is the outcome, with and without archival scopes. *)
Example handleDelete_DoesNotExist :
  let archival := [ {| Authentication.scope := Authentication.putFileArchivalPrefix;
                       Authentication.domain := "foo/" |} ] in
  fst (HubServer.handleDelete Sample.network Sample.hub 1700000000000 Sample.rnd
                              Sample.principal "foo/none"
                              (Sample.headers archival 5 None) Sample.worldWithFooBar)
  = Err DoesNotExist
  /\ fst (HubServer.handleDelete Sample.network Sample.hub 1700000000000 Sample.rnd
                                 Sample.principal "foo/none"
                                 (Sample.headers [] 5 None) Sample.worldWithFooBar)
     = Err DoesNotExist.
Proof. split; vm_compute; reflexivity. Qed.

(** ** Upload: the declared length *)

Section UploadFacts.
Context {D : Type} `{DriverModel D} (net : ProofChecker.Network).
Import Authentication HubServer.

Lemma Qltb_lt (a b : Q) : JS.Qltb a b = true <-> (a < b)%Q.
Proof.
  unfold JS.Qltb. rewrite negb_true_iff. split.
  - intros Hf. apply Qnot_le_lt. intros Hle. apply Qle_bool_iff in Hle. congruence.
  - intros Hlt. destruct (Qle_bool b a) eqn:E; [|reflexivity].
    apply Qle_bool_iff in E. apply Qlt_not_le in Hlt. contradiction.
Qed.

Lemma checkContentLength_refuses (this : HubServer.t) (contentLengthBytes : JS.number) :
  checkContentLength this contentLengthBytes = Err PayloadTooLargeError
  <-> exists n, contentLengthBytes = JS.Finite n
                /\ (0 < n)%Q /\ (maxFileUploadSizeBytes this < n)%Q.
Proof.
  unfold checkContentLength. cbv zeta.
  destruct contentLengthBytes as [|negative|n]; cbn [JS.gt JS.Number_isFinite andb].
  - split; [discriminate|intros (n & Hn & _); discriminate].
  - split; [discriminate|intros (n & Hn & _); discriminate].
  - destruct (JS.Qltb 0 n) eqn:Hpos;
      destruct (JS.Qltb (maxFileUploadSizeBytes this) n) eqn:Hmax; cbn [andb].
    + split; [|reflexivity]. intros _. exists n.
      apply Qltb_lt in Hpos, Hmax. auto.
    + split; [discriminate|]. intros (m & [= <-] & _ & Hlt).
      apply Qltb_lt in Hlt. congruence.
    + split; [discriminate|]. intros (m & [= <-] & Hlt & _).
      apply Qltb_lt in Hlt. congruence.
    + split; [discriminate|]. intros (m & [= <-] & Hlt & _).
      apply Qltb_lt in Hlt. congruence.
Qed.

Lemma checkContentLength_total (this : HubServer.t) (contentLengthBytes : JS.number) :
  checkContentLength this contentLengthBytes = Err PayloadTooLargeError
  \/ checkContentLength this contentLengthBytes = Ok tt.
Proof. unfold checkContentLength. cbv zeta. destruct (_ && _); auto. Qed.

Lemma checkContentLength_not_positive (this : HubServer.t) (q : Q) :
  (q <= 0)%Q -> checkContentLength this (JS.Finite q) = Ok tt.
Proof.
  intros Hq. destruct (checkContentLength_total this (JS.Finite q)) as [Herr|Hok];
    [|exact Hok].
  apply checkContentLength_refuses in Herr. destruct Herr as (n & [= <-] & Hpos & _).
  exfalso. exact (Qlt_not_le _ _ Hpos Hq).
Qed.

(** C4, amended.  For an upload request that passes the steps before
    the check (revocation clock, token, scopes, proof check) and whose
    declared content-length parses to a finite number greater than zero
    and greater than [maxFileUploadSizeBytes], [handleRequest] fails
    with [PayloadTooLargeError] in the world those steps left: they only
    read (the revocation clock, the read-URL prefix, the profile), so no
    [performRename] and no [performWrite] was made.  A content-length of
    0, or below, is never refused by this check. *)
Theorem handleRequest_declared_length_too_large
        (this : HubServer.t) (now : N) (rnd : nat -> nat) (address path : string)
        (requestHeaders : RequestHeaders) (stream : Utils.Readable)
        (w : World D) (archival : bool) (w1 : World D) (n : Q) :
  admitted net this address path requestHeaders writePrefixes writePaths w archival w1 ->
  JS.parseInt (content_length requestHeaders) = JS.Finite n ->
  (0 < n)%Q ->
  (maxFileUploadSizeBytes this < n)%Q ->
  handleRequest net this now rnd address path requestHeaders stream w
  = (Err PayloadTooLargeError, w1)
  /\ (exists evs, trace w1 = (trace w ++ evs)%list /\ forallb readOnly evs = true)
  /\ (forall (other : HubServer.t) (q : Q),
         (q <= 0)%Q -> checkContentLength other (JS.Finite q) = Ok tt)
  /\ JS.parseInt (Some "0") = JS.Finite 0.
Proof.
  intros Hadm Hparse Hpos Hmax.
  split; [|split; [exact (admitted_reads net _ _ _ _ _ _ _ _ _ Hadm)|]].
  - assert (Hcheck : checkContentLength this (JS.parseInt (content_length requestHeaders))
                     = Err PayloadTooLargeError).
    { apply checkContentLength_refuses. exists n. auto. }
    destruct Hadm as (oldest & w1' & w2 & url & w3 & enough
                      & Hclock & Hval & Harch & Hscope & Hurl & Hproof).
    unfold handleRequest.
    rewrite (bind_ok _ _ _ _ _ Hclock), (bind_ok _ _ _ _ _ Hval). cbv zeta.
    rewrite (bind_ok _ _ _ _ _ (lift_ok _ _ w2 Harch)).
    rewrite (bind_ok _ _ _ _ _ (lift_ok _ _ w2 Hscope)).
    rewrite (bind_ok _ _ _ _ _ Hurl), (bind_ok _ _ _ _ _ Hproof).
    apply bind_err. unfold lift. rewrite Hcheck. reflexivity.
  - split; [|reflexivity]. intros other q. apply checkContentLength_not_positive.
Qed.

End UploadFacts.

(** The check of the declared length comes after calls on the driver,
    and after the token is checked. *)
Lemma handleRequest_length_check_after_driver_calls :
  HubServer.handleRequest Sample.network Sample.hub 1000 Sample.rnd Sample.principal
                          "foo/bar" (Sample.headers [] 5 (Some "31457281"))
                          (Sample.stream ["hello"]) Sample.world
  = (Err PayloadTooLargeError,
     {| driver := Sample.emptyStore;
        cache := [(Sample.principal, 0%Z)];
        cacheSize := 2;
        trace := [CallPerformRead Sample.principal ".authTimestamp";
                  CallGetReadURLPrefix] |})
  /\ fst (HubServer.handleRequest Sample.network Sample.hub 1000 Sample.rnd
                                  Sample.principal "foo/bar"
                                  (Sample.anonymous (Some "31457281"))
                                  (Sample.stream ["hello"]) Sample.world)
     = Err ValidationError.
Proof. split; vm_compute; reflexivity. Qed.

Lemma handleRequest_declared_length_too_large_witness :
  fst (HubServer.handleRequest Sample.network Sample.hub 1000 Sample.rnd Sample.principal
                               "foo/bar" (Sample.headers [] 5 (Some "31457281"))
                               (Sample.stream ["hello"]) Sample.worldWithFooBar)
  = Err PayloadTooLargeError
  /\ InMemoryDriver.files
       (driver (snd (HubServer.handleRequest
                       Sample.network Sample.hub 1000 Sample.rnd Sample.principal
                       "foo/bar" (Sample.headers [] 5 (Some "31457281"))
                       (Sample.stream ["hello"]) Sample.worldWithFooBar)))
     = InMemoryDriver.files (driver Sample.worldWithFooBar).
Proof.
  pose (w1 := snd (AuthTimestampCache.getAuthTimestamp
                     Sample.principal Sample.worldWithFooBar)).
  pose (w3 := snd (HubServer.getReadURLPrefix Sample.hub w1)).
  assert (Hadm : admitted Sample.network Sample.hub Sample.principal "foo/bar"
                          (Sample.headers [] 5 (Some "31457281"))
                          Authentication.writePrefixes Authentication.writePaths
                          Sample.worldWithFooBar false w3).
  { exists 0%Z, w1, w1, "http://driver.example/", w3, true.
    repeat split; vm_compute; reflexivity. }
  destruct (handleRequest_declared_length_too_large
              Sample.network Sample.hub 1000 Sample.rnd Sample.principal "foo/bar"
              (Sample.headers [] 5 (Some "31457281")) (Sample.stream ["hello"])
              Sample.worldWithFooBar false w3 (inject_Z 31457281) Hadm
              ltac:(vm_compute; reflexivity) ltac:(reflexivity) ltac:(reflexivity))
    as (Hrun & _).
  rewrite Hrun. split; vm_compute; reflexivity.
Defined.

(** ** Upload: the monitored stream *)

Section MonitorFacts.
Import HubServer.



End MonitorFacts.

Section OverflowFacts.
Context (net : ProofChecker.Network).
Import Authentication HubServer.





End OverflowFacts.


(** With a negative limit an empty stream is longer than the limit, yet
    no chunk ever reaches the counter: the write succeeds. *)
Example handleRequest_negative_limit_empty_stream :
  (HubServer.maxContentLength Sample.negativeLimitHub (JS.parseInt None)
   < inject_Z (totalBytes (Sample.stream [])))%Q
  /\ fst (HubServer.handleRequest Sample.network Sample.negativeLimitHub 1000 Sample.rnd
                                  Sample.principal "foo/bar" (Sample.headers [] 5 None)
                                  (Sample.stream []) Sample.world)
     = Ok "http://driver.example/1Lbcfr7sAHTD9CgdQo3HTMTkV8LK4ZnX71/foo/bar".
Proof. split; vm_compute; reflexivity. Qed.


(** ** Writes of profiles *)

Section NeverFacts.
Context {D : Type} (e : HubError).

Lemma never_ret {A} (a : A) : neverFails e (ret a : Hub D A).
Proof. intros w w'. discriminate. Qed.

Lemma never_throw {A} (e' : HubError) : e' <> e -> neverFails e (throw e' : Hub D A).
Proof. intros Hne w w' [= He _]. exact (Hne He). Qed.

Lemma never_lift {A} (r : Result A) : r <> Err e -> neverFails e (lift r : Hub D A).
Proof. intros Hne w w' [= He _]. exact (Hne He). Qed.

Lemma never_emit (ev : Event) : neverFails e (emit ev : Hub D unit).
Proof. intros w w'. discriminate. Qed.

Lemma never_bind {A B} (m : Hub D A) (k : A -> Hub D B) :
  neverFails e m -> (forall a, neverFails e (k a)) -> neverFails e (bind m k).
Proof.
  intros Hm Hk w w'. unfold bind. destruct (m w) as [[a|e'] w1] eqn:Hrun.
  - apply Hk.
  - intros [= -> ->]. exact (Hm _ _ Hrun).
Qed.

Lemma never_bind_with {A B} (P : A -> Prop) (m : Hub D A) (k : A -> Hub D B) :
  neverFails e m ->
  (forall w a w', m w = (Ok a, w') -> P a) ->
  (forall a, P a -> neverFails e (k a)) ->
  neverFails e (bind m k).
Proof.
  intros Hm HP Hk w w'. unfold bind. destruct (m w) as [[a|e'] w1] eqn:Hrun.
  - apply Hk. exact (HP _ _ _ Hrun).
  - intros [= -> ->]. exact (Hm _ _ Hrun).
Qed.

Lemma never_try_catch {A} (m : Hub D A) (handler : HubError -> Hub D A) :
  neverFails e m -> (forall e', e' <> e -> neverFails e (handler e')) ->
  neverFails e (try_catch m handler).
Proof.
  intros Hm Hh w w'. unfold try_catch. destruct (m w) as [[a|e'] w1] eqn:Hrun.
  - discriminate.
  - apply Hh. intros ->. exact (Hm _ _ Hrun).
Qed.

Lemma never_call {A} (ev : Event) (op : D -> Result A * D) :
  (forall d, fst (op d) <> Err e) -> neverFails e (call ev op).
Proof.
  intros Hop w w'. unfold call. specialize (Hop (driver w)).
  destruct (op (driver w)) as [r d]. intros [= -> _]. exact (Hop eq_refl).
Qed.

End NeverFacts.

Section ProfileWrites.
Context (net : ProofChecker.Network).
Import Authentication HubServer.

Lemma validateAuthorizationHeader_error header serverName address requireCorrect valid oldest :
  validateAuthorizationHeader header serverName address requireCorrect valid oldest
  <> Err NotEnoughProofError.
Proof.
  unfold validateAuthorizationHeader.
  destruct header as [[token|raw]|]; try discriminate.
  repeat match goal with
         | |- (if ?b then _ else _) <> _ => destruct b; [discriminate|]
         end.
  destruct oldest as [oldest|]; [destruct (_ <? _)%Z|]; discriminate.
Qed.

Lemma transform_outcome (limit : Q) (todo : list Buffer) :
  forall size source passed,
    Utils.destroyed source = None ->
    snd (Utils.transform (progressCallback limit) size todo source passed) = None
    \/ snd (Utils.transform (progressCallback limit) size todo source passed)
       = Some PayloadTooLargeError.
Proof.
  induction todo as [|chunk rest IH]; intros size source passed Hlive; simpl; rewrite Hlive.
  - left. reflexivity.
  - unfold progressCallback at 1 3. destruct (JS.Qltb _ _).
    + right. reflexivity.
    + apply IH, Hlive.
Qed.

Lemma getAuthTimestamp_never (address : string) :
  neverFails NotEnoughProofError
             (AuthTimestampCache.getAuthTimestamp address : Hub InMemoryDriver.t Z).
Proof.
  unfold AuthTimestampCache.getAuthTimestamp. apply never_bind.
  - intros w w'. discriminate.
  - intros [ts|].
    + apply never_bind; [intros w w'; discriminate|intros; apply never_ret].
    + apply never_bind.
      * unfold AuthTimestampCache.readAuthTimestamp. apply never_try_catch.
        -- apply never_bind.
           ++ apply never_call. intros d. simpl. unfold InMemoryDriver.performRead.
              destruct (_ !! _); discriminate.
           ++ intros info. destruct (info_exists info); [|apply never_ret].
              destruct (AuthTimestampCache.decode _);
                [apply never_ret|apply never_throw; discriminate].
        -- intros e' He'. destruct e'; first [apply never_ret | apply never_throw; assumption].
      * intros ts. apply never_bind; [intros w w'; discriminate|intros; apply never_ret].
Qed.

Lemma handleRequest_never_proof_error (this : HubServer.t) (now : N) (rnd : nat -> nat)
      (address path : string) (requestHeaders : RequestHeaders)
      (stream : Utils.Readable) :
  JS.endsWith path "/profile.json" = true ->
  Utils.destroyed stream = None ->
  neverFails NotEnoughProofError
             (handleRequest net this now rnd address path requestHeaders stream
              : Hub InMemoryDriver.t string).
Proof.
  intros Hends Hlive. unfold handleRequest.
  apply never_bind; [apply getAuthTimestamp_never|]. intros oldest.
  apply never_bind.
  { unfold validate. apply never_bind.
    - apply never_lift, validateAuthorizationHeader_error.
    - intros signer. destruct (whitelist this); [|apply never_ret].
      destruct (negb _); [apply never_throw; discriminate|apply never_ret]. }
  intros _. cbv zeta.
  apply never_bind.
  { apply never_lift. unfold checkArchivalRestrictions. cbv zeta.
    destruct (isArchivalRestricted _); [|discriminate].
    destruct (negb _); discriminate. }
  intros archival. apply never_bind.
  { apply never_lift. unfold checkScopes.
    destruct (_ || _); [|discriminate]. cbv zeta. destruct (negb _); discriminate. }
  intros _. apply never_bind.
  { unfold HubServer.getReadURLPrefix, driverReadURLPrefix.
    destruct (readURL this) as [url|]; [destruct (JS.truthy url)|];
      first [apply never_ret | apply never_call; intros d; discriminate]. }
  intros readURLPrefix. apply never_bind.
  { intros w w' Hrun.
    rewrite (checkProofs_exempt net (proofChecker this) address path readURLPrefix w
                                (or_intror Hends)) in Hrun.
    discriminate. }
  intros _. apply never_bind.
  { apply never_lift. unfold checkContentLength. cbv zeta. destruct (_ && _); discriminate. }
  intros _. apply never_bind.
  { destruct archival; [|apply never_ret].
    apply never_try_catch.
    - apply never_call. intros d. simpl. unfold InMemoryDriver.performRename.
      destruct (_ !! _); discriminate.
    - intros e' He'. destruct e'; first [apply never_ret | apply never_throw; assumption]. }
  intros _.
  pose proof (transform_outcome
                (maxContentLength this (JS.parseInt (content_length requestHeaders)))
                (Utils.chunks stream) 0 stream [] Hlive) as Houtcome.
  unfold Utils.monitorStreamProgress.
  destruct (Utils.transform _ _ _ _ _) as [[after passed] outcome]. simpl in Houtcome.
  cbn [Utils.monitoredStream Utils.pipelinePromise Utils.inputStreamAfter].
  apply (never_bind_with _ (fun written => written <> Err NotEnoughProofError)).
  { apply never_try_catch; [|intros; apply never_ret].
    apply never_bind; [|intros; apply never_ret].
    apply never_call. intros d. simpl. unfold InMemoryDriver.performWrite, Utils.readStream.
    simpl. destruct Houtcome as [-> | ->]; discriminate. }
  { intros w0 written w0'. unfold try_catch, bind, call, ret. simpl.
    unfold InMemoryDriver.performWrite, Utils.readStream. simpl.
    destruct Houtcome as [-> | ->]; intros [= <- _]; discriminate. }
  intros written Hwritten. apply never_bind.
  { destruct (Utils.destroyed after); [apply never_emit|apply never_ret]. }
  intros _. apply never_bind.
  { destruct outcome as [error|].
    - apply never_throw. destruct Houtcome as [Hnone | [= ->]]; discriminate.
    - destruct written as [url|e']; [apply never_ret|].
      apply never_throw. congruence. }
  intros readURL. apply never_bind.
  { unfold driverReadURLPrefix. apply never_call. intros d. discriminate. }
  intros driverPrefix. apply never_bind.
  { unfold HubServer.getReadURLPrefix, driverReadURLPrefix.
    destruct (HubServer.readURL this) as [url|]; [destruct (JS.truthy url)|];
      first [apply never_ret | apply never_call; intros d; discriminate]. }
  intros prefix. apply never_ret.
Qed.
End ProfileWrites.

(** C10.  [checkProofs] returns [true] and leaves the world as it was (no
    profile is fetched, no proof validated) whenever [proofsRequired] is
    0 or the file name ends with [/profile.json].  So for a path that
    ends with [/profile.json] it does so whatever [proofsRequired] is,
    and a write to such a path does not fail with [NotEnoughProofError].
    A checker built without a configuration requires no proofs. *)
Theorem checkProofs_skips {D : Type} (net : ProofChecker.Network) (this : ProofChecker.t)
        (address filename readURL : string) (w : World D) :
  (ProofChecker.proofsRequired this = 0%Z \/ JS.endsWith filename "/profile.json" = true ->
   ProofChecker.checkProofs net this address filename readURL w = (Ok true, w))
  /\ (JS.endsWith filename "/profile.json" = true ->
      (forall required : Z,
          ProofChecker.checkProofs net {| ProofChecker.proofsRequired := required |}
                                   address filename readURL w
          = (Ok true, w))
      /\ (forall (hub : HubServer.t) (now : N) (rnd : nat -> nat)
                 (requestHeaders : HubServer.RequestHeaders) (stream : Utils.Readable)
                 (store : World InMemoryDriver.t),
             Utils.destroyed stream = None ->
             fst (HubServer.handleRequest net hub now rnd address filename
                                          requestHeaders stream store)
             <> Err NotEnoughProofError))
  /\ ProofChecker.proofsRequired (ProofChecker.constructor None) = 0%Z.
Proof.
  split; [apply checkProofs_exempt|]. split; [|reflexivity].
  intros Hends. split.
  - intros required. apply checkProofs_exempt. right. exact Hends.
  - intros hub now rnd requestHeaders stream store Hlive Hfail.
    destruct (HubServer.handleRequest net hub now rnd address filename
                                      requestHeaders stream store) as [r w'] eqn:Hrun.
    simpl in Hfail. subst r.
    exact (handleRequest_never_proof_error net hub now rnd address filename
                                           requestHeaders stream Hends Hlive _ _ Hrun).
Qed.

Lemma checkProofs_skips_witness :
  ProofChecker.checkProofs
    Sample.network {| ProofChecker.proofsRequired := 3 |}
    Sample.principal "app/profile.json" "http://driver.example/" Sample.world
  = (Ok true, Sample.world).
Proof.
  apply (proj1 (checkProofs_skips
                  Sample.network {| ProofChecker.proofsRequired := 3 |}
                  Sample.principal "app/profile.json" "http://driver.example/"
                  Sample.world)).
  right. reflexivity.
Defined.

(** Without that exemption the same checker refuses: the profile cannot
    be fetched. *)
Example checkProofs_other_path :
  fst (ProofChecker.checkProofs
         Sample.network {| ProofChecker.proofsRequired := 3 |}
         Sample.principal "app/data.json" "http://driver.example/" Sample.world)
  = Err NotEnoughProofError.
Proof. reflexivity. Qed.

(** ** Sample runs *)

Example parseInt_decimal :
  JS.parseInt (Some "31457281") = JS.Finite (inject_Z 31457281).
Proof. reflexivity. Qed.

Example parseInt_trailing : JS.parseInt (Some "  12px") = JS.Finite (inject_Z 12).
Proof. reflexivity. Qed.

Example parseInt_no_digits : JS.parseInt (Some "abc") = JS.NaN.
Proof. reflexivity. Qed.

Example parseInt_missing : JS.parseInt None = JS.NaN.
Proof. reflexivity. Qed.

Example parseInt_hex : JS.parseInt (Some "0x1F") = JS.Finite (inject_Z 31).
Proof. reflexivity. Qed.

Example parseInt_rounds :
  JS.parseInt (Some "9007199254740993") = JS.Finite (inject_Z 9007199254740992).
Proof. vm_compute. reflexivity. Qed.

Example split_slashes : JS.split "/" "a/b//c" = ["a"; "b"; ""; "c"].
Proof. reflexivity. Qed.

Example getHistoricalFileName_nested :
  HubServer.getHistoricalFileName 1700000000000 Sample.rnd "photos/2024/cat.jpg"
  = "photos/2024/.history.1700000000000.07ELSZgnu1.cat.jpg".
Proof. vm_compute. reflexivity. Qed.

Example getHistoricalFileName_flat :
  HubServer.getHistoricalFileName 1700000000000 Sample.rnd "cat.jpg"
  = ".history.1700000000000.07ELSZgnu1.cat.jpg".
Proof. vm_compute. reflexivity. Qed.

Example isHistoricalFile_samples :
  HubServer.isHistoricalFile "photos/.history.1700000000000.07ELSZgnu1.cat.jpg" = true
  /\ HubServer.isHistoricalFile ".history.1/cat.jpg" = false.
Proof. split; reflexivity. Qed.

(** * Further properties *)

(** ** File names and historical names *)

Section HistoryFacts.
Import HubServer.

Lemma hasChar_app (c : ascii) (a b : string) :
  hasChar c (a ++ b) = hasChar c a || hasChar c b.
Proof.
  induction a as [|x a IH]; [reflexivity|].
  rewrite append_cons. simpl. rewrite IH, orb_assoc. reflexivity.
Qed.

Lemma split_no_sep (sep : ascii) (s : string) :
  hasChar sep s = false -> JS.split sep s = [s].
Proof.
  induction s as [|c s IH]; intros Hno; simpl in *; [reflexivity|].
  apply orb_false_iff in Hno. destruct Hno as [Hc Hs].
  rewrite Ascii.eqb_sym, Hc, (IH Hs). reflexivity.
Qed.

Lemma last_split_app (sep : ascii) (dir name : string) :
  List.last (JS.split sep (dir ++ String sep name)) EmptyString
  = List.last (JS.split sep name) EmptyString.
Proof.
  induction dir as [|c dir IH].
  - simpl. rewrite Ascii.eqb_refl.
    destruct (JS.split sep name) eqn:E; [exfalso; exact (split_nonempty _ _ E)|reflexivity].
  - rewrite append_cons. simpl.
    destruct (JS.split sep (dir ++ String sep name)) as [|seg rest] eqn:E;
      [exfalso; exact (split_nonempty _ _ E)|].
    destruct (Ascii.eqb c sep); [exact IH|].
    destruct rest as [|seg2 rest]; [|exact IH].
    exfalso. destruct (split_single _ _ _ E) as [_ Hno].
    rewrite hasChar_app in Hno. simpl in Hno.
    rewrite Ascii.eqb_refl, orb_true_r in Hno. discriminate.
Qed.

Lemma getFileName_no_slash (name : string) :
  hasChar "/" name = false -> getFileName name = name.
Proof. intros Hno. unfold getFileName. rewrite (split_no_sep _ _ Hno). reflexivity. Qed.

Lemma getFileName_app (dir name : string) :
  getFileName (dir ++ "/" ++ name) = getFileName name.
Proof. unfold getFileName. apply (last_split_app "/" dir name). Qed.

(** X1.  [getFileName] returns the last component of a path: the path is
    a directory prefix, empty or ending with a slash, followed by the
    file name, which holds no slash; taking the file name of a file name
    changes nothing. *)
Theorem getFileName_last_component (filePath : string) :
  exists dir,
    filePath = dir ++ getFileName filePath
    /\ (dir = EmptyString \/ exists d, dir = d ++ "/")
    /\ hasChar "/" (getFileName filePath) = false
    /\ getFileName (getFileName filePath) = getFileName filePath.
Proof.
  destruct (split_last_decompose "/" filePath) as (dir & Hpath & Hdir & Hno).
  fold (getFileName filePath) in Hpath, Hno.
  exists dir. repeat split; try assumption.
  apply getFileName_no_slash, Hno.
Qed.

(** X2.  Whether a path is a historical file depends on its last
    component only: for a name without a slash, [dir/name] is historical
    exactly when [name] begins with [.history.], whatever [dir] is. *)
Theorem isHistoricalFile_of_name (dir name : string) :
  hasChar "/" name = false ->
  getFileName (dir ++ "/" ++ name) = name
  /\ isHistoricalFile (dir ++ "/" ++ name) = JS.startsWith name ".history."
  /\ isHistoricalFile name = JS.startsWith name ".history.".
Proof.
  intros Hno.
  assert (Hname : getFileName (dir ++ "/" ++ name) = name).
  { rewrite getFileName_app. apply getFileName_no_slash, Hno. }
  split; [exact Hname|]. unfold isHistoricalFile. cbv zeta.
  rewrite Hname, (getFileName_no_slash _ Hno). split; reflexivity.
Qed.

Lemma isHistoricalFile_of_name_witness :
  isHistoricalFile (".history.1700000000000.0123456789.photos" ++ "/" ++ "cat.jpg") = false
  /\ isHistoricalFile ("photos" ++ "/" ++ ".history.1700000000000.0123456789.cat.jpg") = true.
Proof.
  split.
  - rewrite (proj1 (proj2 (isHistoricalFile_of_name
                             ".history.1700000000000.0123456789.photos" "cat.jpg" eq_refl))).
    reflexivity.
  - rewrite (proj1 (proj2 (isHistoricalFile_of_name
                             "photos" ".history.1700000000000.0123456789.cat.jpg" eq_refl))).
    reflexivity.
Defined.

Lemma string_of_uint_no_slash (u : Decimal.uint) :
  hasChar "/" (NilEmpty.string_of_uint u) = false.
Proof. induction u; simpl; auto. Qed.

Lemma template_of_N_no_slash (n : N) : hasChar "/" (JS.template_of_N n) = false.
Proof.
  unfold JS.template_of_N, NilZero.string_of_uint.
  destruct (N.to_uint n) eqn:E; try reflexivity; rewrite <- E at 1;
    try apply string_of_uint_no_slash.
  all: rewrite E; apply (string_of_uint_no_slash).
Qed.

Lemma hasChar_In (c : ascii) (s : string) :
  hasChar c s = true -> In c (list_ascii_of_string s).
Proof.
  induction s as [|d s IH]; simpl; [discriminate|].
  intros Hc. apply orb_true_iff in Hc. destruct Hc as [Hc | Hc].
  - left. apply Ascii.eqb_eq in Hc. congruence.
  - right. apply IH, Hc.
Qed.

Lemma alphanumeric_no_slash (s : string) : alphanumeric s -> hasChar "/" s = false.
Proof.
  intros Halpha. destruct (hasChar "/" s) eqn:E; [|reflexivity].
  apply hasChar_In in E. unfold alphanumeric in Halpha.
  rewrite List.Forall_forall in Halpha. specialize (Halpha _ E). discriminate.
Qed.

Lemma historicalName_no_slash (now : N) (rnd : nat -> nat) (fileName : string) :
  hasChar "/" fileName = false ->
  hasChar "/" (".history." ++ JS.template_of_N now ++ "." ++ Utils.generateUniqueID rnd
                           ++ "." ++ fileName) = false.
Proof.
  intros Hno. rewrite !hasChar_app, template_of_N_no_slash, Hno.
  rewrite (alphanumeric_no_slash _ (proj2 (generateUniqueID_form rnd))). reflexivity.
Qed.

Lemma getHistoricalFileName_parts (now : N) (rnd : nat -> nat) (path : string) :
  exists dir,
    path = dir ++ getFileName path
    /\ (dir = EmptyString \/ exists d, dir = d ++ "/")
    /\ getHistoricalFileName now rnd path
       = dir ++ ".history." ++ JS.template_of_N now ++ "." ++ Utils.generateUniqueID rnd
             ++ "." ++ getFileName path.
Proof.
  destruct (split_last_decompose "/" path) as (dir & Hpath & Hdir & Hno).
  fold (getFileName path) in Hpath, Hno.
  exists dir. split; [exact Hpath|]. split; [exact Hdir|].
  unfold getHistoricalFileName. cbv zeta. f_equal.
  pose proof (f_equal String.length Hpath) as Hlength.
  rewrite length_append in Hlength.
  replace (String.length path - String.length (getFileName path))%nat
    with (String.length dir) by lia.
  transitivity (JS.slice_to (String.length dir) (dir ++ getFileName path)).
  - f_equal. exact Hpath.
  - apply slice_to_app.
Qed.

Lemma append_inj_r (a b c : string) : a ++ c = b ++ c -> a = b.
Proof.
  revert b. induction a as [|x a IH]; intros b Heq.
  - destruct b as [|y b]; [reflexivity|]. exfalso.
    apply (f_equal String.length) in Heq. rewrite !length_append in Heq. simpl in Heq. lia.
  - destruct b as [|y b].
    + exfalso. apply (f_equal String.length) in Heq.
      rewrite !length_append in Heq. simpl in Heq. lia.
    + rewrite !append_cons in Heq. injection Heq as -> Heq. f_equal. apply IH, Heq.
Qed.

Lemma getFileName_historical (now : N) (rnd : nat -> nat) (path : string) :
  getFileName (getHistoricalFileName now rnd path)
  = ".history." ++ JS.template_of_N now ++ "." ++ Utils.generateUniqueID rnd
                ++ "." ++ getFileName path.
Proof.
  destruct (getHistoricalFileName_parts now rnd path) as (dir & Hpath & Hdir & Hhist).
  destruct (split_last_decompose "/" path) as (_ & _ & _ & Hno).
  fold (getFileName path) in Hno.
  pose proof (historicalName_no_slash now rnd _ Hno) as Hname.
  rewrite Hhist. destruct Hdir as [-> | (d & ->)].
  - apply getFileName_no_slash, Hname.
  - rewrite append_assoc, getFileName_app. apply getFileName_no_slash, Hname.
Qed.

(** X3.  The historical name of a path is a historical file, in the
    directory of the path: its file name is
    [.history.<now>.<id>.<filename>], so [isHistoricalFile] holds of it
    and a listing under archival scopes leaves it out. *)
Theorem getHistoricalFileName_is_historical (now : N) (rnd : nat -> nat) (path : string) :
  getFileName (getHistoricalFileName now rnd path)
  = ".history." ++ JS.template_of_N now ++ "." ++ Utils.generateUniqueID rnd
                ++ "." ++ getFileName path
  /\ isHistoricalFile (getHistoricalFileName now rnd path) = true
  /\ exists dir,
      path = dir ++ getFileName path
      /\ getHistoricalFileName now rnd path
         = dir ++ getFileName (getHistoricalFileName now rnd path).
Proof.
  pose proof (getFileName_historical now rnd path) as Hfile.
  split; [exact Hfile|]. split.
  - unfold isHistoricalFile. cbv zeta. rewrite Hfile. apply startsWith_refl_app.
  - destruct (getHistoricalFileName_parts now rnd path) as (dir & Hpath & _ & Hhist).
    exists dir. split; [exact Hpath|]. rewrite Hfile. exact Hhist.
Qed.

(** X4.  At one instant and with one id, two different paths have
    different historical names. *)
Theorem getHistoricalFileName_injective (now : N) (rnd : nat -> nat) (path path' : string) :
  path <> path' ->
  getHistoricalFileName now rnd path <> getHistoricalFileName now rnd path'.
Proof.
  intros Hne Heq. apply Hne.
  destruct (getHistoricalFileName_parts now rnd path) as (dir & Hpath & _ & Hhist).
  destruct (getHistoricalFileName_parts now rnd path') as (dir' & Hpath' & _ & Hhist').
  pose proof (f_equal getFileName Heq) as Hfile.
  rewrite !getFileName_historical in Hfile.
  do 5 apply append_inj_l in Hfile.
  rewrite Hhist, Hhist', Hfile in Heq. apply append_inj_r in Heq.
  rewrite Hpath, Hpath', Hfile, Heq. reflexivity.
Qed.

Lemma getHistoricalFileName_injective_witness :
  getHistoricalFileName 1700000000000 Sample.rnd "photos/cat.jpg"
  = "photos/.history.1700000000000.07ELSZgnu1.cat.jpg"
  /\ getHistoricalFileName 1700000000000 Sample.rnd "photos/cat.jpg"
     <> getHistoricalFileName 1700000000000 Sample.rnd "photos/.history.cat.jpg".
Proof.
  split; [vm_compute; reflexivity|].
  apply (getHistoricalFileName_injective 1700000000000 Sample.rnd). discriminate.
Defined.

End HistoryFacts.

(** ** Scope matching *)

Section ScopeMatchFacts.
Import Authentication HubServer.

Lemma find_eqb (path : string) (paths : list string) :
  JS.bangbang (JS.find (fun p => String.eqb path p) paths) = true
  <-> In path paths /\ path <> EmptyString.
Proof.
  unfold JS.find. destruct (List.find _ paths) as [p|] eqn:Hfind; simpl.
  - apply find_some in Hfind. destruct Hfind as [Hin Heq].
    apply String.eqb_eq in Heq. subst p. rewrite truthy_nonempty. tauto.
  - split; [discriminate|]. intros [Hin _]. exfalso.
    pose proof (find_none _ _ Hfind _ Hin) as Hne. simpl in Hne.
    rewrite String.eqb_refl in Hne. discriminate.
Qed.

Lemma scope_match_spec (path : string) (prefixes paths : list string) :
  (let match_ := JS.bangbang (JS.find (fun p => JS.startsWith path p) prefixes) in
   if negb match_
   then JS.bangbang (JS.find (fun p => String.eqb path p) paths)
   else match_) = true
  <-> (exists p, JS.find (fun p => JS.startsWith path p) prefixes = Some p
                 /\ p <> EmptyString)
      \/ (In path paths /\ path <> EmptyString).
Proof.
  cbv zeta. pose proof (find_eqb path paths) as Hexact.
  destruct (JS.find (fun p => JS.startsWith path p) prefixes) as [p|]; cbn [JS.bangbang].
  - destruct (JS.truthy p) eqn:Htruthy; cbn [negb].
    + split; [|reflexivity]. intros _. left. exists p. split; [reflexivity|].
      apply truthy_nonempty, Htruthy.
    + rewrite Hexact. split; [intros Hin; right; exact Hin|].
      intros [(q & [= <-] & Hq) | Hin]; [|exact Hin].
      apply truthy_nonempty in Hq. congruence.
  - cbn [negb]. rewrite Hexact. split; [intros Hin; right; exact Hin|].
    intros [(q & [=] & _) | Hin]. exact Hin.
Qed.

(** X5.  The scope block of [handleRequest] and [handleDelete] either
    admits the path or throws [ValidationError].  It admits the path
    exactly when there is no scope of the kind at all, or the first
    prefix scope that is a prefix of the path is not the empty string,
    or the path is not empty and is one of the exact-path scopes. *)
Theorem checkScopes_spec (path : string) (prefixes paths : list string) :
  (checkScopes path prefixes paths = Ok tt
   \/ checkScopes path prefixes paths = Err ValidationError)
  /\ (checkScopes path prefixes paths = Ok tt
      <-> (prefixes = [] /\ paths = [])
          \/ (exists p, JS.find (fun p => JS.startsWith path p) prefixes = Some p
                        /\ p <> EmptyString)
          \/ (In path paths /\ path <> EmptyString)).
Proof.
  unfold checkScopes. cbv zeta.
  pose proof (no_scopes_iff prefixes paths) as Hnone.
  pose proof (find_eqb path paths) as Hexact.
  destruct ((0 <? length prefixes)%nat || (0 <? length paths)%nat).
  - assert (Hsome : ~ (prefixes = [] /\ paths = [])).
    { intros Hboth. apply Hnone in Hboth. discriminate. }
    destruct (JS.find (fun p => JS.startsWith path p) prefixes) as [p|] eqn:Hfind;
      cbn [JS.bangbang].
    + destruct (JS.truthy p) eqn:Htruthy; cbn [negb].
      * split; [left; reflexivity|]. split; [|reflexivity].
        intros _. right. left. exists p. split; [reflexivity|].
        apply truthy_nonempty, Htruthy.
      * assert (Hp : p = EmptyString).
        { destruct (String.eqb p EmptyString) eqn:E; [apply String.eqb_eq, E|].
          unfold JS.truthy in Htruthy. rewrite E in Htruthy. discriminate. }
        destruct (JS.bangbang (JS.find (fun p0 => String.eqb path p0) paths)); cbn [negb].
        -- split; [left; reflexivity|]. split; [|reflexivity].
           intros _. right. right. apply Hexact. reflexivity.
        -- split; [right; reflexivity|]. split; [discriminate|].
           intros [Hboth | [(q & [= <-] & Hq) | Hin]]; [tauto|congruence|].
           apply Hexact in Hin. discriminate.
    + cbn [negb].
      destruct (JS.bangbang (JS.find (fun p0 => String.eqb path p0) paths)); cbn [negb].
      * split; [left; reflexivity|]. split; [|reflexivity].
        intros _. right. right. apply Hexact. reflexivity.
      * split; [right; reflexivity|]. split; [discriminate|].
        intros [Hboth | [(q & Hq & _) | Hin]]; [tauto|discriminate|].
        apply Hexact in Hin. discriminate.
  - split; [left; reflexivity|]. split; [|reflexivity].
    intros _. left. apply Hnone. reflexivity.
Qed.

(** X6.  [checkArchivalRestrictions] returns [false] exactly when the
    token has no archival scope; with archival scopes it returns [true]
    exactly when the path matches them (the first archival prefix that
    is a prefix of the path is not empty, or the path is not empty and
    is one of the archival paths) and throws [ValidationError] exactly
    when it does not. *)
Theorem checkArchivalRestrictions_spec (address path : string) (scopes : AuthScopeValues) :
  let restricted := writeArchivalPaths scopes <> [] \/ writeArchivalPrefixes scopes <> [] in
  let matches :=
    (exists p, JS.find (fun p => JS.startsWith path p) (writeArchivalPrefixes scopes) = Some p
               /\ p <> EmptyString)
    \/ (In path (writeArchivalPaths scopes) /\ path <> EmptyString) in
  (isArchivalRestricted scopes = true <-> restricted)
  /\ (checkArchivalRestrictions address path scopes = Ok false <-> ~ restricted)
  /\ (checkArchivalRestrictions address path scopes = Ok true <-> restricted /\ matches)
  /\ (checkArchivalRestrictions address path scopes = Err ValidationError
      <-> restricted /\ ~ matches).
Proof.
  cbv zeta.
  assert (Hrestricted : isArchivalRestricted scopes = true
                        <-> writeArchivalPaths scopes <> []
                            \/ writeArchivalPrefixes scopes <> []).
  { unfold isArchivalRestricted.
    destruct (writeArchivalPaths scopes), (writeArchivalPrefixes scopes); simpl;
      split; intros Hyp; try reflexivity; try discriminate; auto.
    destruct Hyp; congruence. }
  split; [exact Hrestricted|].
  pose proof (scope_match_spec path (writeArchivalPrefixes scopes) (writeArchivalPaths scopes))
    as Hmatch.
  unfold checkArchivalRestrictions. cbv zeta in *.
  destruct (isArchivalRestricted scopes).
  - assert (Hyes : writeArchivalPaths scopes <> [] \/ writeArchivalPrefixes scopes <> [])
      by (apply Hrestricted; reflexivity).
    destruct (if negb _ then _ else _); cbn [negb].
    + assert (Hm : (exists p, JS.find (fun p => JS.startsWith path p)
                                      (writeArchivalPrefixes scopes) = Some p
                              /\ p <> EmptyString)
                   \/ (In path (writeArchivalPaths scopes) /\ path <> EmptyString))
        by (apply Hmatch; reflexivity).
      split; [|split].
      * split; [discriminate|tauto].
      * split; [tauto|reflexivity].
      * split; [discriminate|tauto].
    + assert (Hm : ~ ((exists p, JS.find (fun p => JS.startsWith path p)
                                         (writeArchivalPrefixes scopes) = Some p
                                 /\ p <> EmptyString)
                      \/ (In path (writeArchivalPaths scopes) /\ path <> EmptyString))).
      { intros Hyp. apply Hmatch in Hyp. discriminate. }
      split; [|split].
      * split; [discriminate|tauto].
      * split; [discriminate|tauto].
      * split; [tauto|reflexivity].
  - assert (Hno : ~ (writeArchivalPaths scopes <> [] \/ writeArchivalPrefixes scopes <> [])).
    { intros Hyp. apply Hrestricted in Hyp. discriminate. }
    split; [|split].
    + split; [tauto|reflexivity].
    + split; [discriminate|tauto].
    + split; [discriminate|tauto].
Qed.

End ScopeMatchFacts.

(** ** The token check *)

Section ValidateFacts.
Context {D : Type} `{DriverModel D}.
Import Authentication HubServer.

Lemma includes_In (arr : list string) (x : string) :
  JS.includes arr x = true <-> In x arr.
Proof.
  unfold JS.includes. rewrite existsb_exists. split.
  - intros (y & Hin & Heq). apply String.eqb_eq in Heq. subst y. exact Hin.
  - intros Hin. exists x. split; [exact Hin|apply String.eqb_refl].
Qed.

Lemma validate_world (this : HubServer.t) (address : string)
      (requestHeaders : HubServer.RequestHeaders) (oldest : option Z)
      (w : World D) (r : Result unit) (w' : World D) :
  HubServer.validate this address requestHeaders oldest w = (r, w') -> w' = w.
Proof.
  unfold HubServer.validate, bind, lift.
  destruct (validateAuthorizationHeader _ _ _ _ _ _) as [signer|e].
  - destruct (HubServer.whitelist this); [destruct (negb _)|]; intros [= _ <-]; reflexivity.
  - intros [= _ <-]. reflexivity.
Qed.

(** X7.  [validate] leaves the world as it is.  It succeeds exactly when
    the authorization header validates to a signing address and, where
    a whitelist is configured, that address is on it; its error is the
    one of the header check or a [ValidationError].  With an empty
    whitelist nobody is admitted. *)
Theorem validate_whitelist (this : HubServer.t) (address : string)
        (requestHeaders : RequestHeaders) (oldestValidTokenTimestamp : option Z)
        (w : World D) :
  let header :=
    validateAuthorizationHeader (authorization requestHeaders) (serverName this) address
                                (requireCorrectHubUrl this) (validHubUrls this)
                                oldestValidTokenTimestamp in
  let run := validate this address requestHeaders oldestValidTokenTimestamp w in
  snd run = w
  /\ (fst run = Ok tt
      <-> exists signingAddress,
            header = Ok signingAddress
            /\ forall whitelist, HubServer.whitelist this = Some whitelist ->
                                 In signingAddress whitelist)
  /\ (forall error, fst run = Err error -> header = Err error \/ error = ValidationError)
  /\ (HubServer.whitelist this = Some [] -> fst run <> Ok tt).
Proof.
  cbv zeta. unfold validate, bind, lift.
  destruct (validateAuthorizationHeader _ _ _ _ _ _) as [signer|e].
  - destruct (whitelist this) as [wl|] eqn:Hwl.
    + destruct (JS.includes wl signer) eqn:Hin; cbn [negb].
      * apply includes_In in Hin. split; [reflexivity|]. split; [|split].
        -- split; [|reflexivity]. intros _. exists signer. split; [reflexivity|].
           intros wl' [= <-]. exact Hin.
        -- intros error [=].
        -- intros [= ->]. destruct Hin.
      * assert (Hout : ~ In signer wl).
        { intros Hyes. apply includes_In in Hyes. congruence. }
        split; [reflexivity|]. split; [|split].
        -- split; [discriminate|]. intros (s & [= <-] & Hall).
           exfalso. exact (Hout (Hall wl eq_refl)).
        -- intros error [= <-]. right. reflexivity.
        -- intros _. discriminate.
    + split; [reflexivity|]. split; [|split].
      * split; [|reflexivity]. intros _. exists signer. split; [reflexivity|].
        intros wl [=].
      * intros error [=].
      * intros [=].
  - split; [reflexivity|]. split; [|split].
    + split; [discriminate|]. intros (s & [=] & _).
    + intros error [= <-]. left. reflexivity.
    + intros _. discriminate.
Qed.

(** X8.  [handleAuthBump] validates the token first, without the
    revocation clock: when the token is refused the bump throws that
    error and the world is as before (no call on the driver, no change
    of the cache); when it is accepted the bump is the write of the
    timestamp. *)
Theorem handleAuthBump_validates_first
        (this : HubServer.t) (address : string) (oldestValidTimestamp : Z)
        (requestHeaders : HubServer.RequestHeaders) (w : World D) :
  (fst (HubServer.validate this address requestHeaders None w) = Ok tt
   /\ HubServer.handleAuthBump this address oldestValidTimestamp requestHeaders w
      = AuthTimestampCache.setAuthTimestamp address oldestValidTimestamp w)
  \/ (exists error,
         fst (HubServer.validate this address requestHeaders None w) = Err error
         /\ HubServer.handleAuthBump this address oldestValidTimestamp requestHeaders w
            = (Err error, w)).
Proof.
  unfold HubServer.handleAuthBump.
  destruct (HubServer.validate this address requestHeaders None w) as [[[]|error] w'] eqn:Hval;
    pose proof (validate_world _ _ _ _ _ _ _ Hval) as ->.
  - left. split; [reflexivity|]. exact (bind_ok _ _ _ _ _ Hval).
  - right. exists error. split; [reflexivity|]. exact (bind_err _ _ _ _ _ Hval).
Qed.

End ValidateFacts.

(** ** The proof check, in full *)

Section ProofOutcomeFacts.
Context {D : Type} (net : ProofChecker.Network).
Import ProofChecker.

(** X9.  [checkProofs] returns [true] or throws [NotEnoughProofError],
    nothing else: a failure to fetch or verify the profile, or to
    validate the proofs, is reported as [NotEnoughProofError].  It
    returns [true] exactly when no proof is required, or the file name
    ends with [/profile.json], or the profile at
    [<readURL><address>/profile.json] is fetched and verified, its
    proofs validate, and at least [proofsRequired] of them are valid. *)
Theorem checkProofs_outcome (this : t) (address filename readURL : string) (w : World D) :
  let run := checkProofs net this address filename readURL w in
  let url := readURL ++ address ++ "/profile.json" in
  (fst run = Ok true \/ fst run = Err NotEnoughProofError)
  /\ (fst run = Ok true
      <-> proofsRequired this = 0%Z
          \/ JS.endsWith filename "/profile.json" = true
          \/ exists profile proofs,
               fetchVerified net url address = Some profile
               /\ validateProofs net profile address = Some proofs
               /\ (proofsRequired this <= Z.of_nat (length (List.filter valid proofs)))%Z).
Proof.
  cbv zeta. unfold checkProofs.
  destruct (proofsRequired this =? 0)%Z eqn:Hzero; cbn [orb].
  { apply Z.eqb_eq in Hzero. split; [left; reflexivity|].
    split; [|reflexivity]. intros _. left. exact Hzero. }
  apply Z.eqb_neq in Hzero.
  destruct (JS.endsWith filename "/profile.json") eqn:Hends.
  { split; [left; reflexivity|]. split; [|reflexivity]. intros _. right. left. reflexivity. }
  unfold fetchProfile, validEnough.
  destruct (fetchVerified net _ address) as [profile|] eqn:Hfetch;
    cbv beta iota zeta delta [bind try_catch emit ret throw fst snd].
  - destruct (validateProofs net profile address) as [proofs|] eqn:Hvalidate.
    + destruct (proofsRequired this <=? Z.of_nat (length (List.filter valid proofs)))%Z
        eqn:Henough; cbn [fst].
      * split; [left; reflexivity|]. split; [|reflexivity]. intros _. right. right.
        exists profile, proofs. apply Z.leb_le in Henough. auto.
      * split; [right; reflexivity|]. split; [discriminate|].
        intros [Hz | [He | (profile' & proofs' & [= <-] & Hv & Hle)]];
          [contradiction|discriminate|].
        rewrite Hvalidate in Hv. injection Hv as <-.
        apply Z.leb_le in Hle. congruence.
    + cbn [fst]. split; [right; reflexivity|]. split; [discriminate|].
      intros [Hz | [He | (profile' & proofs' & [= <-] & Hv & _)]];
        [contradiction|discriminate|congruence].
  - cbn [fst]. split; [right; reflexivity|]. split; [discriminate|].
    intros [Hz | [He | (profile' & proofs' & Hf & _)]];
      [contradiction|discriminate|discriminate].
Qed.

(** X10.  [checkProofs] changes neither the store nor the revocation
    cache.  When it is not exempt it fetches one profile, at
    [<readURL><address>/profile.json], and validates proofs only after
    that fetch succeeded; when it is exempt it fetches nothing. *)
Theorem checkProofs_fetches (this : t) (address filename readURL : string) (w : World D) :
  let run := checkProofs net this address filename readURL w in
  let url := readURL ++ address ++ "/profile.json" in
  driver (snd run) = driver w
  /\ cache (snd run) = cache w
  /\ trace (snd run)
     = (trace w
          ++ if (proofsRequired this =? 0)%Z || JS.endsWith filename "/profile.json"
             then []
             else FetchProfile url
                    :: match fetchVerified net url address with
                       | Some _ => [ValidateProofs address]
                       | None => []
                       end)%list.
Proof.
  cbv zeta. unfold checkProofs.
  destruct ((proofsRequired this =? 0)%Z || JS.endsWith filename "/profile.json").
  { simpl. rewrite app_nil_r. repeat split. }
  unfold fetchProfile, validEnough.
  destruct (fetchVerified net _ address) as [profile|];
    cbv beta iota zeta delta [bind try_catch emit ret throw fst snd].
  - destruct (validateProofs net profile address) as [proofs|].
    + destruct (proofsRequired this <=? Z.of_nat (length (List.filter valid proofs)))%Z;
        simpl; rewrite <- app_assoc; repeat split.
    + simpl. rewrite <- app_assoc. repeat split.
  - simpl. repeat split.
Qed.

End ProofOutcomeFacts.

(** ** Streams *)

Section StreamFacts.
Import Utils HubServer.

Lemma transform_prefix (cb : StreamProgressCallback) (todo : list Buffer) :
  forall (size : Z) (source : Readable) (passed : list Buffer),
  exists done rest,
    todo = (done ++ rest)%list
    /\ snd (fst (transform cb size todo source passed)) = (passed ++ done)%list
    /\ (snd (transform cb size todo source passed) = None -> rest = []).
Proof.
  induction todo as [|chunk rest IH]; intros size source passed; simpl.
  - exists [], []. rewrite (app_nil_r passed).
    destruct (destroyed source); simpl; repeat split; reflexivity.
  - destruct (destroyed source) as [error|].
    + exists [], (chunk :: rest). rewrite (app_nil_r passed). simpl.
      repeat split; [discriminate].
    + destruct (cb _ _ source) as [source' [error|]].
      * exists [], (chunk :: rest). rewrite (app_nil_r passed). simpl.
        repeat split; [discriminate].
      * destruct (IH (size + Z.of_nat (length chunk))%Z source' (passed ++ [chunk])%list)
          as (done & rest' & Hsplit & Hpassed & Hnone).
        exists (chunk :: done), rest'. split; [rewrite Hsplit; reflexivity|].
        split; [|exact Hnone].
        rewrite Hpassed, <- app_assoc. reflexivity.
Qed.

(** X11.  Whatever the progress callback is, the monitored stream ends
    as the pipeline does, and what it passes on is a prefix of the
    chunks of the input, in order and untouched; when the pipeline
    resolves it has passed on every chunk. *)
Theorem monitorStreamProgress_passes_prefix
        (inputStream : Readable) (progressCallback : StreamProgressCallback) :
  let result := monitorStreamProgress inputStream progressCallback in
  snd (monitoredStream result) = pipelinePromise result
  /\ (exists rest,
         chunks inputStream = (fst (monitoredStream result) ++ rest)%list
         /\ (pipelinePromise result = None -> rest = [])).
Proof.
  cbv zeta. unfold monitorStreamProgress. cbv zeta.
  destruct (transform_prefix progressCallback (chunks inputStream) 0 inputStream [])
    as (done & rest & Hsplit & Hpassed & Hnone).
  split.
  - destruct (transform _ _ _ _ _) as [[after passed] outcome]. reflexivity.
  - exists rest.
    destruct (transform _ _ _ _ _) as [[after passed] outcome].
    simpl in *. subst passed. split; [exact Hsplit|exact Hnone].
Qed.

Lemma transform_transparent (cb : StreamProgressCallback) (todo : list Buffer) :
  forall (size : Z) (source : Readable) (passed : list Buffer),
    destroyed source = None ->
    (forall totalBytes chunkBytes stream, cb totalBytes chunkBytes stream = (stream, None)) ->
    transform cb size todo source passed = (source, (passed ++ todo)%list, None).
Proof.
  induction todo as [|chunk rest IH]; intros size source passed Hlive Hquiet; simpl;
    rewrite Hlive.
  - rewrite app_nil_r. reflexivity.
  - rewrite Hquiet, (IH _ _ _ Hlive Hquiet), <- app_assoc. reflexivity.
Qed.

(** X12.  With a progress callback that never throws and leaves the
    input alone, monitoring is transparent: the monitored stream
    delivers the chunks of the input, the pipeline resolves, the input
    is as before, and [readStream] of the monitored stream is the bytes
    of the input. *)
Theorem monitorStreamProgress_transparent
        (inputStream : Readable) (progressCallback : StreamProgressCallback) :
  destroyed inputStream = None ->
  (forall totalBytes chunkBytes stream,
      progressCallback totalBytes chunkBytes stream = (stream, None)) ->
  monitorStreamProgress inputStream progressCallback
  = {| monitoredStream := (chunks inputStream, None);
       pipelinePromise := None;
       inputStreamAfter := inputStream |}
  /\ readStream (monitoredStream (monitorStreamProgress inputStream progressCallback))
     = Ok (concat (chunks inputStream)).
Proof.
  intros Hlive Hquiet.
  assert (Hrun : monitorStreamProgress inputStream progressCallback
                 = {| monitoredStream := (chunks inputStream, None);
                      pipelinePromise := None;
                      inputStreamAfter := inputStream |}).
  { unfold monitorStreamProgress. cbv zeta.
    rewrite (transform_transparent _ _ _ _ _ Hlive Hquiet). reflexivity. }
  split; [exact Hrun|]. rewrite Hrun. reflexivity.
Qed.

Lemma monitorStreamProgress_transparent_witness :
  readStream (monitoredStream
                (monitorStreamProgress (Sample.stream ["he"; "llo"])
                                       (fun _ _ stream => (stream, None))))
  = Ok (buffer_of "hello").
Proof.
  apply (proj2 (monitorStreamProgress_transparent
                  (Sample.stream ["he"; "llo"]) (fun _ _ stream => (stream, None))
                  eq_refl (fun _ _ _ => eq_refl))).
Defined.

Lemma transform_within_limit (limit : Q) (todo : list Buffer) :
  forall (size : Z) (source : Readable) (passed : list Buffer),
    destroyed source = None ->
    size = Z.of_nat (length (concat passed)) ->
    (passed = [] \/ (inject_Z size <= limit)%Q) ->
    let run := transform (progressCallback limit) size todo source passed in
    let outcome := snd run in
    let passed' := snd (fst run) in
    let after := fst (fst run) in
    (outcome = None
     <-> todo = [] \/ (inject_Z (size + Z.of_nat (length (concat todo))) <= limit)%Q)
    /\ (outcome = None \/ outcome = Some PayloadTooLargeError)
    /\ (passed' = [] \/ (inject_Z (Z.of_nat (length (concat passed'))) <= limit)%Q)
    /\ (outcome = None -> after = source)
    /\ (outcome <> None -> after = destroy PayloadTooLargeError source).
Proof.
  induction todo as [|chunk rest IH]; intros size source passed Hlive Hsize Hunder;
    cbv zeta; simpl; rewrite Hlive.
  - simpl. split; [split; [left; reflexivity|reflexivity]|].
    split; [left; reflexivity|]. split.
    + destruct Hunder as [-> | Hle]; [left; reflexivity|right; rewrite <- Hsize; exact Hle].
    + split; [reflexivity|congruence].
  - assert (Hcall : progressCallback limit (size + Z.of_nat (length chunk))%Z
                                     (Z.of_nat (length chunk)) source
                    = if JS.Qltb limit (inject_Z (size + Z.of_nat (length chunk)))
                      then (destroy PayloadTooLargeError source, Some PayloadTooLargeError)
                      else (source, None)) by reflexivity.
    rewrite Hcall. clear Hcall.
    destruct (JS.Qltb limit (inject_Z (size + Z.of_nat (length chunk)))) eqn:Hstep; simpl.
    + apply Qltb_lt in Hstep. split.
      * split; [discriminate|]. intros [Hnil | Hle]; [discriminate|]. exfalso.
        apply (Qlt_not_le _ _ Hstep). eapply Qle_trans; [|exact Hle].
        rewrite <- Zle_Qle. rewrite length_app. lia.
      * split; [right; reflexivity|]. split.
        -- destruct Hunder as [-> | Hle]; [left; reflexivity|right; rewrite <- Hsize; exact Hle].
        -- split; [intros [=]|reflexivity].
    + assert (Hle : (inject_Z (size + Z.of_nat (length chunk)) <= limit)%Q).
      { apply Qnot_lt_le. intros Hlt. apply Qltb_lt in Hlt. congruence. }
      specialize (IH (size + Z.of_nat (length chunk))%Z source (passed ++ [chunk])%list Hlive).
      cbv zeta in IH.
      destruct IH as (Hiff & Hcases & Hpassed & Hsame & Hdead).
      { rewrite concat_app, length_app. simpl. rewrite app_nil_r. lia. }
      { right. exact Hle. }
      split; [|auto].
      rewrite Hiff. rewrite length_app, Nat2Z.inj_add, Z.add_assoc. split.
      * intros [-> | Hall]; right; [|exact Hall].
        simpl. rewrite Z.add_0_r. exact Hle.
      * intros [Hnil | Hall]; [discriminate|right; exact Hall].
Qed.

(** X13.  Under the progress callback of [handleRequest] with limit
    [limit], on a stream that is not destroyed: the pipeline resolves
    exactly when the stream has no chunk or its bytes are at most
    [limit], and otherwise rejects with [PayloadTooLargeError]; the
    bytes passed on to the driver never exceed [limit]; the source
    stream is destroyed with the error exactly when the pipeline
    rejects. *)
Theorem monitorStreamProgress_within_limit (limit : Q) (stream : Readable) :
  destroyed stream = None ->
  let result := monitorStreamProgress stream (progressCallback limit) in
  (pipelinePromise result = None
   <-> chunks stream = [] \/ (inject_Z (totalBytes stream) <= limit)%Q)
  /\ (pipelinePromise result = None \/ pipelinePromise result = Some PayloadTooLargeError)
  /\ (fst (monitoredStream result) = []
      \/ (inject_Z (Z.of_nat (length (concat (fst (monitoredStream result))))) <= limit)%Q)
  /\ (pipelinePromise result = None -> inputStreamAfter result = stream)
  /\ (pipelinePromise result <> None ->
      inputStreamAfter result = destroy PayloadTooLargeError stream).
Proof.
  intros Hlive. cbv zeta. unfold monitorStreamProgress. cbv zeta.
  pose proof (transform_within_limit limit (chunks stream) 0 stream [] Hlive eq_refl
                                     (or_introl eq_refl)) as Hrun.
  cbv zeta in Hrun.
  destruct (transform _ _ _ _ _) as [[after passed] outcome]. exact Hrun.
Qed.

Lemma monitorStreamProgress_within_limit_witness :
  pipelinePromise (monitorStreamProgress (Sample.stream ["he"; "llo"]) (progressCallback 5))
  = None
  /\ pipelinePromise (monitorStreamProgress (Sample.stream ["he"; "llo"]) (progressCallback 4))
     = Some PayloadTooLargeError.
Proof.
  destruct (monitorStreamProgress_within_limit 5 (Sample.stream ["he"; "llo"]) eq_refl)
    as (Hfive & _).
  destruct (monitorStreamProgress_within_limit 4 (Sample.stream ["he"; "llo"]) eq_refl)
    as (Hfour & Hcases & _).
  split.
  - apply Hfive. right. vm_compute. discriminate.
  - destruct Hcases as [Hnone | Hsome]; [|exact Hsome].
    apply Hfour in Hnone. destruct Hnone as [Hnil | Hle]; [discriminate|].
    exfalso. vm_compute in Hle. apply Hle. reflexivity.
Defined.

Lemma fold_write_buffers (chunks : list Buffer) (memStream : MemoryStream) :
  buffers (fold_left (fun this chunk => _write chunk this) chunks memStream)
  = (buffers memStream ++ chunks)%list.
Proof.
  revert memStream. induction chunks as [|chunk rest IH]; intros memStream; simpl.
  - rewrite app_nil_r. reflexivity.
  - rewrite IH. simpl. rewrite <- app_assoc. reflexivity.
Qed.

(** X14.  [readStream] pipes the stream into a [MemoryStream] and returns
    its data: the buffers written are the chunks of the stream in order,
    and the data is their concatenation, also when there is one chunk
    (which [getData] returns as it is) or none; a stream that ends with
    an error rejects with it. *)
Theorem readStream_collects (stream : list Buffer * option HubError) :
  readStream stream
  = match pipelineInto stream newMemoryStream with
    | Ok memStream => Ok (getData memStream)
    | Err error => Err error
    end
  /\ (forall memStream, pipelineInto stream newMemoryStream = Ok memStream ->
                        buffers memStream = fst stream
                        /\ getData memStream = concat (fst stream))
  /\ (forall error, snd stream = Some error -> readStream stream = Err error).
Proof.
  assert (Hdata : forall chunks : list Buffer,
             getData {| buffers := chunks |} = concat chunks).
  { intros chunks. unfold getData. simpl.
    destruct chunks as [|only [|second rest]]; simpl; try reflexivity.
    rewrite app_nil_r. reflexivity. }
  assert (Hfold : fold_left (fun this chunk => _write chunk this) (fst stream) newMemoryStream
                  = {| buffers := fst stream |}).
  { pose proof (fold_write_buffers (fst stream) newMemoryStream) as Hb.
    destruct (fold_left _ _ _) as [b]. simpl in Hb. rewrite Hb. reflexivity. }
  unfold readStream, pipelineInto. cbv zeta. rewrite Hfold.
  destruct (snd stream) as [error|]; split; try reflexivity.
  - split; [intros memStream [=]|]. intros e [= <-]. reflexivity.
  - rewrite Hdata. reflexivity.
  - split; [|intros e [=]]. intros memStream [= <-]. split; [reflexivity|apply Hdata].
Qed.

Lemma transform_accepts (limit : Q) (todo : list Buffer) :
  forall (size : Z) (source : Utils.Readable) (passed : list Buffer),
    Utils.destroyed source = None ->
    todo = [] \/ (inject_Z (size + Z.of_nat (length (concat todo))) <= limit)%Q ->
    Utils.transform (HubServer.progressCallback limit) size todo source passed
    = (source, (passed ++ todo)%list, None).
Proof.
  induction todo as [|chunk rest IH]; intros size source passed Hlive Hfits; simpl;
    rewrite Hlive.
  - rewrite app_nil_r. reflexivity.
  - destruct Hfits as [Hnil | Hfits]; [discriminate|].
    simpl in Hfits. rewrite length_app, Nat2Z.inj_add, Z.add_assoc in Hfits.
    unfold HubServer.progressCallback at 1.
    destruct (JS.Qltb limit (inject_Z (size + Z.of_nat (length chunk)))) eqn:Hstep.
    + exfalso. apply Qltb_lt in Hstep. apply (Qlt_not_le _ _ Hstep).
      eapply Qle_trans; [|exact Hfits]. rewrite <- Zle_Qle. lia.
    + rewrite (IH _ source (passed ++ [chunk])%list Hlive (or_intror Hfits)).
      rewrite <- app_assoc. reflexivity.
Qed.

Lemma monitorStreamProgress_accepts (limit : Q) (stream : Utils.Readable) :
  Utils.destroyed stream = None ->
  Utils.chunks stream = [] \/ (inject_Z (totalBytes stream) <= limit)%Q ->
  Utils.monitorStreamProgress stream (HubServer.progressCallback limit)
  = {| Utils.monitoredStream := (Utils.chunks stream, None);
       Utils.pipelinePromise := None;
       Utils.inputStreamAfter := stream |}.
Proof.
  intros Hlive Hfits. unfold Utils.monitorStreamProgress. cbv zeta.
  rewrite (transform_accepts limit (Utils.chunks stream) 0 stream [] Hlive Hfits).
  reflexivity.
Qed.

End StreamFacts.

(** ** Dates *)

Section DateFacts.
Import Utils.

(** X15.  [dateToUnixTimeSeconds] of a date is the whole number of seconds
    nearest to its time in milliseconds, the later one when two are
    equally near: it is within half a second of the time, and a time of
    whole seconds gives that number.  An invalid date gives [NaN]. *)
Theorem dateToUnixTimeSeconds_nearest (time : Z) :
  dateToUnixTimeSeconds InvalidDate = JS.NaN
  /\ exists seconds : Z,
      dateToUnixTimeSeconds (DateAt time) = JS.Finite (inject_Z seconds)
      /\ (1000 * seconds - 500 <= time < 1000 * seconds + 500)%Z
      /\ (forall whole : Z, time = (1000 * whole)%Z -> seconds = whole).
Proof.
  split; [reflexivity|].
  exists ((time + 500) / 1000)%Z.
  assert (Hfloor : Qfloor (inject_Z time / 1000 + (1 # 2)) = ((time + 500) / 1000)%Z).
  { unfold Qfloor, Qdiv, Qmult, Qplus, Qinv, inject_Z. simpl.
    rewrite <- (Z.div_mul_cancel_r (time + 500) 1000 2) by lia.
    f_equal; lia. }
  split; [|split].
  - unfold dateToUnixTimeSeconds, getTime, JS.divide, JS.Math_round. rewrite Hfloor.
    reflexivity.
  - pose proof (Z.div_mod (time + 500) 1000 ltac:(lia)) as Hdm.
    pose proof (Z.mod_pos_bound (time + 500) 1000 ltac:(lia)) as Hb. lia.
  - intros whole ->.
    replace (1000 * whole + 500)%Z with (500 + whole * 1000)%Z by lia.
    rewrite Z.div_add by lia. reflexivity.
Qed.

End DateFacts.

(** ** The read URL handed back *)

Section ReadURLFacts.
Import HubServer.

(** X16.  When the URL the driver returned starts with the driver's
    prefix, the URL [handleRequest] hands back starts with the hub's
    read prefix and is that prefix followed by what followed the
    driver's prefix. *)
Theorem rewriteReadURL_prefix (readURLPrefix driverPrefix readURL : string) :
  JS.startsWith readURL driverPrefix = true ->
  JS.startsWith (rewriteReadURL readURLPrefix driverPrefix readURL) readURLPrefix = true
  /\ rewriteReadURL readURLPrefix driverPrefix readURL
     = readURLPrefix ++ JS.slice_from (String.length driverPrefix) readURL.
Proof.
  intros Hst.
  assert (Hform : rewriteReadURL readURLPrefix driverPrefix readURL
                  = readURLPrefix ++ JS.slice_from (String.length driverPrefix) readURL).
  { destruct (String.eqb readURLPrefix driverPrefix) eqn:E.
    - apply String.eqb_eq in E. subst driverPrefix.
      rewrite rewriteReadURL_keeps by (left; reflexivity).
      apply startsWith_decompose, Hst.
    - apply String.eqb_neq in E. apply rewriteReadURL_strips; assumption. }
  split; [|exact Hform]. rewrite Hform. apply startsWith_refl_app.
Qed.

Lemma rewriteReadURL_prefix_witness :
  rewriteReadURL "https://hub.example/" "http://localhost:4000/" "http://localhost:4000/P/foo"
  = "https://hub.example/" ++ "P/foo".
Proof.
  apply (proj2 (rewriteReadURL_prefix "https://hub.example/" "http://localhost:4000/"
                                      "http://localhost:4000/P/foo" eq_refl)).
Defined.

End ReadURLFacts.

(** ** The keyed lock: release *)

Section ReleaseFacts.
Import AsyncMutexScope.

Lemma filter_owner (owner : nat) (id : string) (callbacks : list (nat * string)) :
  Forall (fun cb => cb.1 <> owner) callbacks ->
  filter (fun cb => cb.1 = owner) (callbacks ++ [(owner, id)])%list = [(owner, id)]
  /\ filter (fun cb => cb.1 <> owner) (callbacks ++ [(owner, id)])%list = callbacks.
Proof.
  intros Hothers. induction Hothers as [|cb callbacks Hcb Hrest [IH1 IH2]]; simpl.
  - rewrite filter_cons_True by reflexivity. rewrite filter_cons_False by (simpl; tauto).
    split; reflexivity.
  - rewrite filter_cons_False by exact Hcb. rewrite filter_cons_True by exact Hcb.
    rewrite IH1, IH2. split; reflexivity.
Qed.

(** X17.  Acquire and release restore the scope: when [id] is free and
    [spawnOwner] returns a promise, leaves the set of held ids alone and
    nothing else waits on that promise, [tryAcquire] raises
    [openedCount] by one, and once the promise settles, however it
    does, the set of held ids and [openedCount] are what they were
    before and the callback is gone. *)
Theorem tryAcquire_then_settle (id : string) (spawnOwner : SpawnOwner) (scope after : t)
        (owner : nat) (how : Settlement) :
  id ∉ _opened scope ->
  spawnOwner {| _opened := {[id]} ∪ _opened scope;
                finalizers := finalizers scope;
                invoked := invoked scope ++ [id] |}
  = (after, Returned owner) ->
  _opened after = {[id]} ∪ _opened scope ->
  Forall (fun cb => cb.1 <> owner) (finalizers after) ->
  let acquired := fst (tryAcquire id spawnOwner scope) in
  openedCount acquired = S (openedCount scope)
  /\ _opened (settle owner how acquired) = _opened scope
  /\ openedCount (settle owner how acquired) = openedCount scope
  /\ finalizers (settle owner how acquired) = finalizers after.
Proof.
  intros Hfree Hrun Hopened Hothers. cbv zeta.
  assert (Hacq : fst (tryAcquire id spawnOwner scope) = finally owner id after).
  { unfold tryAcquire, has, invoke, add.
    rewrite bool_decide_eq_false_2 by exact Hfree. cbn [_opened finalizers invoked].
    rewrite Hrun. reflexivity. }
  rewrite Hacq.
  destruct (filter_owner owner id (finalizers after) Hothers) as [Hmine Hrest].
  assert (Hback : _opened (settle owner how (finally owner id after)) = _opened scope).
  { unfold settle, finally. cbn [_opened finalizers invoked].
    rewrite Hmine. cbn [foldr]. rewrite Hopened. cbn [snd]. set_solver. }
  split; [|split; [exact Hback|split]].
  - unfold openedCount, finally. cbn [_opened]. rewrite Hopened.
    rewrite size_union by set_solver. rewrite size_singleton. reflexivity.
  - unfold openedCount. rewrite Hback. reflexivity.
  - unfold settle, finally. cbn [_opened finalizers invoked]. exact Hrest.
Qed.

Lemma tryAcquire_then_settle_witness :
  let scope := {| _opened := {["a"]}; finalizers := []; invoked := [] |} in
  let spawnOwner : SpawnOwner := fun scope => (scope, Returned 8%nat) in
  openedCount (fst (tryAcquire "b" spawnOwner scope)) = 2%nat
  /\ _opened (settle 8 Fulfilled (fst (tryAcquire "b" spawnOwner scope))) = {["a"]}.
Proof.
  intros scope spawnOwner.
  destruct (tryAcquire_then_settle "b" spawnOwner scope
              {| _opened := {["b"]} ∪ {["a"]}; finalizers := []; invoked := ["b"] |}
              8%nat Fulfilled)
    as (Hcount & Hback & _).
  - set_solver.
  - reflexivity.
  - reflexivity.
  - constructor.
  - split; [|exact Hback]. rewrite Hcount. reflexivity.
Defined.

End ReleaseFacts.

(** ** The upload limit *)

Section LimitFacts.
Import HubServer.

(** X18.  The server's upload limit is never zero megabytes, and in bytes
    it is 1048576 times the limit in megabytes.  A configured limit that
    is not zero is the limit; with no configured limit, or a configured
    limit of zero, the limit is 20 megabytes, and a declared
    content-length is refused exactly when it exceeds 20971520. *)
Theorem constructor_upload_limit (proofChecker : ProofChecker.t) (config : HubConfigInterface) :
  let this := constructor proofChecker config in
  ~ (maxFileUploadSizeMB this == 0)%Q
  /\ (maxFileUploadSizeBytes this == 1048576 * maxFileUploadSizeMB this)%Q
  /\ (forall size, config_maxFileUploadSize config = Some size -> ~ (size == 0)%Q ->
                   maxFileUploadSizeMB this = size)
  /\ (config_maxFileUploadSize config = None
      \/ (exists size, config_maxFileUploadSize config = Some size /\ (size == 0)%Q) ->
      maxFileUploadSizeMB this = 20%Q
      /\ forall n : Q,
          checkContentLength this (JS.Finite n) = Err PayloadTooLargeError
          <-> (20971520 < n)%Q).
Proof.
  cbv zeta.
  assert (Hbytes : forall this : HubServer.t,
             maxFileUploadSizeBytes this = Utils.megabytesToBytes (maxFileUploadSizeMB this) ->
             (maxFileUploadSizeBytes this == 1048576 * maxFileUploadSizeMB this)%Q).
  { intros this ->. unfold Utils.megabytesToBytes. ring. }
  split; [|split; [apply Hbytes; reflexivity|split]].
  - unfold constructor. cbn [maxFileUploadSizeMB].
    destruct (config_maxFileUploadSize config) as [size|]; [|discriminate].
    destruct (Qeq_bool size 0) eqn:E; [discriminate|].
    intros Hzero. apply Qeq_bool_iff in Hzero. congruence.
  - intros size Hsize Hnonzero. unfold constructor. cbn [maxFileUploadSizeMB].
    rewrite Hsize. destruct (Qeq_bool size 0) eqn:E; [|reflexivity].
    apply Qeq_bool_iff in E. contradiction.
  - intros Hdefault.
    assert (Hmb : maxFileUploadSizeMB (constructor proofChecker config) = 20%Q).
    { unfold constructor. cbn [maxFileUploadSizeMB].
      destruct Hdefault as [-> | (size & -> & Hzero)]; [reflexivity|].
      apply Qeq_bool_iff in Hzero. rewrite Hzero. reflexivity. }
    split; [exact Hmb|]. intros n.
    pose proof (Hbytes (constructor proofChecker config) eq_refl) as Hlimit.
    rewrite Hmb in Hlimit.
    rewrite checkContentLength_refuses. split.
    + intros (m & [= <-] & _ & Hlt). rewrite Hlimit in Hlt. exact Hlt.
    + intros Hlt. exists n. split; [reflexivity|]. split.
      * eapply Qlt_trans; [|exact Hlt]. reflexivity.
      * rewrite Hlimit. exact Hlt.
Qed.

End LimitFacts.

(** ** Handlers: what they call on the driver *)

Section HandlerSteps.
Context {D : Type} `{DriverModel D} (net : ProofChecker.Network).
Import Authentication.

Lemma getAuthTimestamp_reads (address : string) :
  respects readsFrom (AuthTimestampCache.getAuthTimestamp address : Hub D Z).
Proof.
  apply (getAuthTimestamp_respects readsFrom readsFrom_refl readsFrom_trans).
  - intros principal timestamp w0 r w0' [= <- <-]. exists []. simpl.
    rewrite app_nil_r. split; reflexivity.
  - intros principal. apply call_reads. reflexivity.
Qed.

Lemma getReadURLPrefix_reads (this : HubServer.t) :
  respects readsFrom (HubServer.getReadURLPrefix this : Hub D string).
Proof.
  apply (getReadURLPrefix_respects readsFrom readsFrom_refl).
  apply call_reads. reflexivity.
Qed.

Lemma checkProofs_reads (this : ProofChecker.t) (address filename readURL : string) :
  respects readsFrom (ProofChecker.checkProofs net this address filename readURL : Hub D bool).
Proof.
  apply (checkProofs_respects net readsFrom readsFrom_refl readsFrom_trans).
  - intros url. apply emit_reads. reflexivity.
  - intros address'. apply emit_reads. reflexivity.
Qed.

Lemma lift_run {A} (x : Result A) (w : World D) (r : Result A) (w' : World D) :
  lift x w = (r, w') -> r = x /\ w' = w.
Proof. intros [= <- <-]. split; reflexivity. Qed.

Lemma readOnly_not_mutating (evs : list Event) :
  forallb readOnly evs = true -> List.filter mutating evs = [].
Proof.
  induction evs as [|ev evs IH]; simpl; [reflexivity|].
  intros Hall. apply andb_true_iff in Hall. destruct Hall as [Hev Hrest].
  rewrite (IH Hrest). destruct ev; try discriminate; reflexivity.
Qed.

End HandlerSteps.

(** Runs the first step of a handler: either it returned, and the handler
    goes on, or it threw, and the handler throws the same. *)
Tactic Notation "run_step" ident(H) ident(r) ident(w') :=
  match goal with
  | |- context [bind ?m ?k ?w] =>
      destruct (m w) as [[r|r] w'] eqn:H;
      [rewrite (bind_ok m k w _ _ H) | rewrite (bind_err m k w _ _ H)]
  end.

(** Runs the steps [handleDelete] and [handleRequest] share (revocation
    clock, token, archival scopes, scopes of the action, read-URL prefix,
    proof check) on the goal.  Where a step throws, the handler throws,
    and [refused] is given the proof that the world then follows the
    first one by reads; where they all pass the goal is left, about the
    action of the handler. *)
Ltac run_admission net refused :=
  let R1 := fresh "R1" in
  let R2 := fresh "R2" in
  let R3 := fresh "R3" in
  let Hclock := fresh "Hclock" in
  let Hval := fresh "Hval" in
  let Harch := fresh "Harch" in
  let Hscope := fresh "Hscope" in
  let Hurl := fresh "Hurl" in
  let Hproof := fresh "Hproof" in
  let Hadm := fresh "Hadm" in
  let oldest := fresh "oldest" in
  let valid := fresh "valid" in
  let archival := fresh "archival" in
  let scoped := fresh "scoped" in
  let readURLPrefix := fresh "readURLPrefix" in
  let enough := fresh "enough" in
  let w1 := fresh "w1" in
  let w2 := fresh "w2" in
  let w3 := fresh "w3" in
  let w4 := fresh "w4" in
  run_step Hclock oldest w1;
  pose proof (getAuthTimestamp_reads _ _ _ _ Hclock) as R1;
  [|refused R1];
  run_step Hval valid w2;
  pose proof (validate_world _ _ _ _ _ _ _ Hval) as ->;
  [|refused R1];
  cbv zeta;
  run_step Harch archival w2;
  apply lift_run in Harch; destruct Harch as [Harch ->];
  [|refused R1];
  run_step Hscope scoped w2;
  apply lift_run in Hscope; destruct Hscope as [Hscope ->];
  [|refused R1];
  run_step Hurl readURLPrefix w3;
  pose proof (readsFrom_trans _ _ _ R1 (getReadURLPrefix_reads _ _ _ _ Hurl)) as R2;
  [|refused R2];
  run_step Hproof enough w4;
  pose proof (readsFrom_trans _ _ _ R2 (checkProofs_reads net _ _ _ _ _ _ _ Hproof)) as R3;
  [|refused R3];
  assert (Hadm : admitted net _ _ _ _ _ _ _ archival w4)
    by (destruct valid, scoped;
        exists oldest, w1, w1, readURLPrefix, w3, enough; repeat split;
        first [eassumption | symmetry; eassumption]).

(** Enters a handler on a request that is admitted. *)
Ltac enter_admitted Hadm :=
  let oldest := fresh "oldest" in
  let w1 := fresh "w" in
  let w2 := fresh "w" in
  let url := fresh "url" in
  let w3 := fresh "w" in
  let enough := fresh "enough" in
  let Hclock := fresh "Hclock" in
  let Hval := fresh "Hval" in
  let Harch := fresh "Harch" in
  let Hscope := fresh "Hscope" in
  let Hurl := fresh "Hurl" in
  let Hproof := fresh "Hproof" in
  destruct Hadm as (oldest & w1 & w2 & url & w3 & enough
                    & Hclock & Hval & Harch & Hscope & Hurl & Hproof);
  rewrite (bind_ok _ _ _ _ _ Hclock), (bind_ok _ _ _ _ _ Hval); cbv zeta;
  rewrite (bind_ok _ _ _ _ _ (lift_ok _ _ w2 Harch));
  rewrite (bind_ok _ _ _ _ _ (lift_ok _ _ w2 Hscope));
  rewrite (bind_ok _ _ _ _ _ Hurl), (bind_ok _ _ _ _ _ Hproof).

Section HandlerCalls.
Context {D : Type} `{DriverModel D} (net : ProofChecker.Network).
Import Authentication.

(** X19.  Either a delete request passes the steps before the action
    (revocation clock, token, archival and delete scopes, proof check),
    or [handleDelete] throws and the calls it made only read: no
    [performDelete] and no [performRename] was made. *)
Theorem handleDelete_refused_only_reads (this : HubServer.t) (now : N) (rnd : nat -> nat)
        (address path : string) (requestHeaders : HubServer.RequestHeaders) (w : World D) :
  let run := HubServer.handleDelete net this now rnd address path requestHeaders w in
  (exists archival w1,
      admitted net this address path requestHeaders deletePrefixes deletePaths w archival w1)
  \/ ((exists error, fst run = Err error)
      /\ exists evs, trace (snd run) = (trace w ++ evs)%list
                     /\ forallb readOnly evs = true).
Proof.
  cbv zeta. unfold HubServer.handleDelete.
  run_admission net ltac:(fun R => right; split; [eexists; reflexivity|exact R]).
  left. exists archival, w4. exact Hadm.
Qed.

(** X20.  Either an upload request passes the steps before the action
    (revocation clock, token, archival and write scopes, proof check)
    and the check of its declared length, or [handleRequest] throws and
    the calls it made only read: no [performRename] and no
    [performWrite] was made. *)
Theorem handleRequest_refused_only_reads (this : HubServer.t) (now : N) (rnd : nat -> nat)
        (address path : string) (requestHeaders : HubServer.RequestHeaders)
        (stream : Utils.Readable) (w : World D) :
  let run := HubServer.handleRequest net this now rnd address path requestHeaders stream w in
  (exists archival w1,
      admitted net this address path requestHeaders writePrefixes writePaths w archival w1
      /\ HubServer.checkContentLength
           this (JS.parseInt (HubServer.content_length requestHeaders)) = Ok tt)
  \/ ((exists error, fst run = Err error)
      /\ exists evs, trace (snd run) = (trace w ++ evs)%list
                     /\ forallb readOnly evs = true).
Proof.
  cbv zeta. unfold HubServer.handleRequest.
  run_admission net ltac:(fun R => right; split; [eexists; reflexivity|exact R]).
  run_step Hcheck checked w5; apply lift_run in Hcheck; destruct Hcheck as [Hcheck ->].
  - left. exists archival, w4. destruct checked. split; [exact Hadm|]. symmetry. exact Hcheck.
  - right. split; [eexists; reflexivity|exact R3].
Qed.

(** X21.  For an upload request that passes the steps before the action
    and the check of its declared length, with a stream that is not
    destroyed and within the limit (the declared length, or the
    configured maximum), and whose archival rename, where archival
    scopes apply, succeeded or found no object: [performWrite] receives
    the chunks of the request as they are, under the bucket and path of
    the request, with the content type of the request
    ([application/octet-stream] when there is none) and the parsed
    content-length.  When the write fails, [handleRequest] throws its
    error; when it returns a URL, [handleRequest] returns that URL with
    the driver's prefix replaced by the hub's read prefix. *)
Theorem handleRequest_passes_stream
        (this : HubServer.t) (now : N) (rnd : nat -> nat) (address path : string)
        (requestHeaders : HubServer.RequestHeaders) (stream : Utils.Readable)
        (w : World D) (archival : bool) (w1 : World D) :
  admitted net this address path requestHeaders writePrefixes writePaths w archival w1 ->
  HubServer.checkContentLength
    this (JS.parseInt (HubServer.content_length requestHeaders)) = Ok tt ->
  Utils.destroyed stream = None ->
  (Utils.chunks stream = []
   \/ (inject_Z (totalBytes stream)
       <= HubServer.maxContentLength
            this (JS.parseInt (HubServer.content_length requestHeaders)))%Q) ->
  let renamed :=
    performRename {| rename_path := path;
                     rename_storageTopLevel := address;
                     rename_newPath := HubServer.getHistoricalFileName now rnd path |}
                  (driver w1) in
  (archival = true -> fst renamed = Ok tt \/ fst renamed = Err DoesNotExist) ->
  let written :=
    performWrite {| write_storageTopLevel := address;
                    write_path := path;
                    write_stream := (Utils.chunks stream, None);
                    write_contentType :=
                      match HubServer.content_type requestHeaders with
                      | Some contentType => contentType
                      | None => "application/octet-stream"
                      end;
                    write_contentLength :=
                      JS.parseInt (HubServer.content_length requestHeaders) |}
                 (if archival then snd renamed else driver w1) in
  let driverPrefix := getReadURLPrefix (snd written) in
  let readURLPrefix :=
    match HubServer.readURL this with
    | Some url => if JS.truthy url then url else driverPrefix
    | None => driverPrefix
    end in
  let run := HubServer.handleRequest net this now rnd address path requestHeaders stream w in
  fst run = match fst written with
            | Ok readURL => Ok (HubServer.rewriteReadURL readURLPrefix driverPrefix readURL)
            | Err error => Err error
            end
  /\ driver (snd run) = snd written.
Proof.
  intros Hadm Hcheck Hlive Hfits renamed Hrename written driverPrefix readURLPrefix run.
  subst run readURLPrefix driverPrefix written renamed.
  unfold HubServer.handleRequest. enter_admitted Hadm.
  rewrite (bind_ok _ _ _ _ _ (lift_ok _ _ w1 Hcheck)).
  rewrite (monitorStreamProgress_accepts _ _ Hlive Hfits).
  cbn [Utils.monitoredStream Utils.pipelinePromise Utils.inputStreamAfter].
  rewrite Hlive.
  unfold HubServer.getReadURLPrefix, HubServer.driverReadURLPrefix.
  destruct archival.
  - specialize (Hrename eq_refl).
    unfold bind, try_catch, call, emit, ret, throw.
    destruct (performRename _ (driver w1)) as [[[]|error] d1];
      cbn [driver cache cacheSize trace fst snd] in *.
    + destruct (performWrite _ d1) as [[stored|error] d2];
        cbn [driver cache cacheSize trace fst snd]; [|split; reflexivity].
      destruct (HubServer.readURL this) as [configured|];
        [destruct (JS.truthy configured)|]; split; reflexivity.
    + destruct Hrename as [Hno | [= ->]]; [discriminate|].
      cbn [driver cache cacheSize trace fst snd].
      destruct (performWrite _ d1) as [[stored|error] d2];
        cbn [driver cache cacheSize trace fst snd]; [|split; reflexivity].
      destruct (HubServer.readURL this) as [configured|];
        [destruct (JS.truthy configured)|]; split; reflexivity.
  - unfold bind, try_catch, call, emit, ret, throw.
    destruct (performWrite _ (driver w1)) as [[stored|error] d2];
      cbn [driver cache cacheSize trace fst snd]; [|split; reflexivity].
    destruct (HubServer.readURL this) as [configured|];
      [destruct (JS.truthy configured)|]; split; reflexivity.
Qed.

(** X22.  Under archival scopes, when the rename of the object to its
    historical name fails with an error other than [DoesNotExist],
    [handleRequest] throws that error at once: the rename is the last
    call it made, and no [performWrite] follows. *)
Theorem handleRequest_rename_failure_aborts
        (this : HubServer.t) (now : N) (rnd : nat -> nat) (address path : string)
        (requestHeaders : HubServer.RequestHeaders) (stream : Utils.Readable)
        (w w1 : World D) (error : HubError) :
  admitted net this address path requestHeaders writePrefixes writePaths w true w1 ->
  HubServer.checkContentLength
    this (JS.parseInt (HubServer.content_length requestHeaders)) = Ok tt ->
  let historicalPath := HubServer.getHistoricalFileName now rnd path in
  let renamed :=
    performRename {| rename_path := path;
                     rename_storageTopLevel := address;
                     rename_newPath := historicalPath |}
                  (driver w1) in
  fst renamed = Err error ->
  error <> DoesNotExist ->
  HubServer.handleRequest net this now rnd address path requestHeaders stream w
  = (Err error,
     {| driver := snd renamed; cache := cache w1; cacheSize := cacheSize w1;
        trace := trace w1 ++ [CallPerformRename address path historicalPath] |}).
Proof.
  intros Hadm Hcheck historicalPath renamed Hrenamed Hother.
  subst renamed historicalPath.
  unfold HubServer.handleRequest. enter_admitted Hadm.
  rewrite (bind_ok _ _ _ _ _ (lift_ok _ _ w1 Hcheck)).
  apply bind_err. unfold try_catch, call, ret, throw.
  destruct (performRename _ (driver w1)) as [[[]|failure] d1]; cbn [fst snd] in *;
    [discriminate|].
  injection Hrenamed as ->. destruct error; try reflexivity. contradiction.
Qed.


(** X23.  The calls of [handleRequest] that change the store are at most
    one rename, of the requested path to its historical name, and then
    at most one write, of the requested path, both in the bucket of the
    request; it never deletes. *)
Theorem handleRequest_mutations
        (this : HubServer.t) (now : N) (rnd : nat -> nat) (address path : string)
        (requestHeaders : HubServer.RequestHeaders) (stream : Utils.Readable)
        (w : World D) :
  let run := HubServer.handleRequest net this now rnd address path requestHeaders stream w in
  let rename := CallPerformRename address path (HubServer.getHistoricalFileName now rnd path) in
  let write := CallPerformWrite address path in
  exists evs,
    trace (snd run) = (trace w ++ evs)%list
    /\ In (List.filter mutating evs) [[]; [write]; [rename]; [rename; write]].
Proof.
  cbv zeta. unfold HubServer.handleRequest.
  run_admission net ltac:(fun R =>
    let evs := fresh "evs" in
    destruct R as (evs & ? & ?); exists evs; split; [assumption|];
    rewrite readOnly_not_mutating by assumption; left; reflexivity).
  destruct R3 as (evs0 & Htrace & Hreads).
  pose proof (readOnly_not_mutating _ Hreads) as Hnone.
  assert (Hgoal : forall (r : Result string) (w' : World D) (tail : list Event),
             trace w' = (trace w4 ++ tail)%list ->
             In (List.filter mutating tail)
                [[]; [CallPerformWrite address path];
                 [CallPerformRename address path
                                    (HubServer.getHistoricalFileName now rnd path)];
                 [CallPerformRename address path
                                    (HubServer.getHistoricalFileName now rnd path);
                  CallPerformWrite address path]] ->
             exists evs,
               trace (snd (r, w')) = (trace w ++ evs)%list
               /\ In (List.filter mutating evs)
                     [[]; [CallPerformWrite address path];
                      [CallPerformRename address path
                                         (HubServer.getHistoricalFileName now rnd path)];
                      [CallPerformRename address path
                                         (HubServer.getHistoricalFileName now rnd path);
                       CallPerformWrite address path]]).
  { intros r w' tail Htail Hin. exists (evs0 ++ tail)%list. split.
    - simpl. rewrite Htail, Htrace, app_assoc. reflexivity.
    - rewrite List.filter_app, Hnone. exact Hin. }
  run_step Hcheck checked w5; apply lift_run in Hcheck; destruct Hcheck as [Hcheck ->];
    [|apply (Hgoal _ _ []); [rewrite app_nil_r; reflexivity|left; reflexivity]].
  destruct (Utils.monitorStreamProgress _ _) as [[passed outcome] promise after].
  cbn [Utils.monitoredStream Utils.pipelinePromise Utils.inputStreamAfter].
  unfold HubServer.getReadURLPrefix, HubServer.driverReadURLPrefix.
  unfold bind, try_catch, call, emit, ret, throw.
  destruct archival.
  - destruct (performRename _ (driver w4)) as [[[]|failure] d1];
      [|destruct failure];
      cbn [driver cache cacheSize trace];
      try (eapply (Hgoal _ _ [_]); [reflexivity|simpl; tauto]);
      (destruct (performWrite _ d1) as [[stored|failure] d2];
       cbn [driver cache cacheSize trace];
       destruct (Utils.destroyed after), promise;
       cbn [driver cache cacheSize trace];
       try (destruct (HubServer.readURL this) as [configured|];
            [destruct (JS.truthy configured)|]);
       cbn [driver cache cacheSize trace];
       rewrite <- ?app_assoc;
       (eapply Hgoal; [reflexivity|simpl; tauto])).
  - destruct (performWrite _ (driver w4)) as [[stored|failure] d2];
      cbn [driver cache cacheSize trace];
      destruct (Utils.destroyed after), promise;
      cbn [driver cache cacheSize trace];
      try (destruct (HubServer.readURL this) as [configured|];
           [destruct (JS.truthy configured)|]);
      cbn [driver cache cacheSize trace];
      rewrite <- ?app_assoc;
      (eapply Hgoal; [reflexivity|simpl; tauto]).
Qed.

(** X24.  [handleListFiles] reads (the revocation clock) and then makes
    at most one more call on the driver: the listing of the requested
    bucket and page, in the requested mode.  A run without that call is
    a refusal. *)
Theorem handleListFiles_one_listing
        (this : HubServer.t) (address : string) (page : option string) (stat : bool)
        (requestHeaders : HubServer.RequestHeaders) (w : World D) :
  let run := HubServer.handleListFiles this address page stat requestHeaders w in
  let listing := if stat then CallListFilesStat address page
                 else CallListFiles address page in
  exists reads,
    forallb readOnly reads = true
    /\ ((trace (snd run) = (trace w ++ reads)%list /\ exists error, fst run = Err error)
        \/ trace (snd run) = (trace w ++ reads ++ [listing])%list).
Proof.
  cbv zeta. unfold HubServer.handleListFiles.
  run_step Hclock oldest w1;
    destruct (getAuthTimestamp_reads _ _ _ _ Hclock) as (reads & Htrace & Hreads);
    exists reads; (split; [exact Hreads|]);
    [|left; split; [exact Htrace|eexists; reflexivity]].
  cbv zeta.
  run_step Hval valid w2; pose proof (validate_world _ _ _ _ _ _ _ Hval) as ->;
    [|left; split; [exact Htrace|eexists; reflexivity]].
  right. unfold bind, call, ret.
  destruct stat.
  - destruct (listFilesStat _ (driver w1)) as [[listed|error] d1];
      repeat match goal with
             | |- context [if ?b then _ else _] => destruct b
             end;
      simpl; rewrite Htrace, <- app_assoc; reflexivity.
  - destruct (listFiles _ (driver w1)) as [[listed|error] d1];
      repeat match goal with
             | |- context [if ?b then _ else _] => destruct b
             end;
      simpl; rewrite Htrace, <- app_assoc; reflexivity.
Qed.

End HandlerCalls.

Lemma handleRequest_passes_stream_witness :
  let run :=
    HubServer.handleRequest Sample.network Sample.hub 1000 Sample.rnd Sample.principal
                            "foo/bar" (Sample.headers [] 5 None) (Sample.stream ["hello"])
                            Sample.world in
  fst run = Ok "http://driver.example/1Lbcfr7sAHTD9CgdQo3HTMTkV8LK4ZnX71/foo/bar"
  /\ InMemoryDriver.files (driver (snd run)) !! InMemoryDriver.key Sample.principal "foo/bar"
     = Some {| InMemoryDriver.content := buffer_of "hello";
               InMemoryDriver.contentType := "application/octet-stream" |}.
Proof.
  intros run.
  pose (w1 := snd (AuthTimestampCache.getAuthTimestamp Sample.principal Sample.world)).
  pose (w3 := snd (HubServer.getReadURLPrefix Sample.hub w1)).
  assert (Hadm : admitted Sample.network Sample.hub Sample.principal "foo/bar"
                          (Sample.headers [] 5 None)
                          Authentication.writePrefixes Authentication.writePaths
                          Sample.world false w3).
  { exists 0%Z, w1, w1, "http://driver.example/", w3, true.
    repeat split; vm_compute; reflexivity. }
  destruct (handleRequest_passes_stream
              Sample.network Sample.hub 1000 Sample.rnd Sample.principal "foo/bar"
              (Sample.headers [] 5 None) (Sample.stream ["hello"])
              Sample.world false w3 Hadm
              ltac:(vm_compute; reflexivity) ltac:(reflexivity)
              ltac:(right; vm_compute; discriminate) ltac:(discriminate))
    as [Hfst Hdriver].
  unfold run. rewrite Hfst, Hdriver. split; vm_compute; reflexivity.
Defined.

Lemma handleRequest_rename_failure_aborts_witness :
  let archival := [ {| Authentication.scope := Authentication.putFileArchivalPrefix;
                       Authentication.domain := "foo/" |} ] in
  let sealed : World SealedDriver.t := HubServer.newWorld tt Sample.config in
  let run :=
    HubServer.handleRequest Sample.network Sample.hub 1000 Sample.rnd Sample.principal
                            "foo/bar" (Sample.headers archival 5 None)
                            (Sample.stream ["hello"]) sealed in
  fst run = Err DriverError
  /\ List.filter mutating (trace (snd run))
     = [CallPerformRename Sample.principal "foo/bar" "foo/.history.1000.07ELSZgnu1.bar"].
Proof.
  intros archival sealed run.
  pose (w1 := snd (AuthTimestampCache.getAuthTimestamp Sample.principal sealed)).
  pose (w3 := snd (HubServer.getReadURLPrefix Sample.hub w1)).
  assert (Hadm : admitted Sample.network Sample.hub Sample.principal "foo/bar"
                          (Sample.headers archival 5 None)
                          Authentication.writePrefixes Authentication.writePaths
                          sealed true w3).
  { exists 0%Z, w1, w1, "http://sealed.example/", w3, true.
    repeat split; vm_compute; reflexivity. }
  pose proof (handleRequest_rename_failure_aborts
                Sample.network Sample.hub 1000 Sample.rnd Sample.principal "foo/bar"
                (Sample.headers archival 5 None) (Sample.stream ["hello"])
                sealed w3 DriverError Hadm
                ltac:(vm_compute; reflexivity) ltac:(reflexivity) ltac:(discriminate))
    as Hrun.
  unfold run. rewrite Hrun. split; vm_compute; reflexivity.
Defined.
